(** * Wallet balance projection, sum-to-n and token swap: a shallow embedding

    The development embeds these pieces of the repository:

    - problem 1, the three [sum_to_n] functions, and the module of seven
      implementations that validate their input;
    - problem 2, the token swap form (the amount typed, the tokens built
      from the price feed, the tokens selected) and the token swap
      application with its state manager (prices, balances, validation of
      a swap, the amounts exchanged);
    - problem 3, the wallet page in its three variants (the exam
      component with its [sortedBalances] and [rows], the refactored
      component and the optimal component, both with
      [formattedBalances]);
    - the host built-ins those components call: [Array.prototype.sort],
      [Number.prototype.toFixed] and the arithmetic of JavaScript numbers.

    JavaScript numbers are IEEE 754 binary64 values, and so are Rocq's
    primitive floats: amounts, prices and USD values are [float], with
    [PrimFloat.mul] and [PrimFloat.ltb] for [*] and [<].  Numbers that the
    sources only ever use as small integers (the chain priorities, the
    results of the comparators, the operands of [sum_to_n]) are [Z]; on the
    integers of magnitude below 2^53 the two arithmetics coincide.

    Objects used as dictionaries ([BLOCKCHAIN_PRIORITIES], the price table)
    are finite maps keyed by strings; a lookup reads the object's own
    properties. *)

From Stdlib Require Import ZArith List Sorted Permutation Lia Bool.
From Stdlib Require Import Ascii String DecimalString DecimalPos.
From Stdlib Require Import PrimFloat FloatOps SpecFloat FloatAxioms.
From stdpp Require Import gmap strings.
From Equations Require Import Equations.

Set Warnings "-inexact-float".

Import ListNotations.
Local Open Scope Z_scope.

(** ** Host built-ins *)

Module Host.

(** [ToNumber(undefined)]: the operand of [*] when a property is absent. *)
Definition ToNumber_undefined : float := nan.

(** [Array.prototype.sort(comparefn)].  ECMAScript fixes the result for a
    consistent comparator: a stable reordering in which [comparefn x y > 0]
    puts [y] first.  Only the sign of the comparator's result is read.
    The model is a stable insertion sort: [x], coming from the left, stays
    in front of every [y] with [comparefn x y <= 0]. *)
Section Sort.
Context {A : Type} (comparefn : A -> A -> Z).

Fixpoint sort_insert (x : A) (l : list A) : list A :=
  match l with
  | [] => [x]
  | y :: l' =>
      if comparefn x y <=? 0 then x :: y :: l'
      else y :: sort_insert x l'
  end.

Fixpoint sort (l : list A) : list A :=
  match l with
  | [] => []
  | x :: l' => sort_insert x (sort l')
  end.
End Sort.

(** Decimal digits of a natural number, most significant first. *)
Definition digits (n : N) : list ascii :=
  list_ascii_of_string (NilEmpty.string_of_uint (N.to_uint n)).

Definition isDigit (c : ascii) : bool :=
  ((48 <=? nat_of_ascii c) && (nat_of_ascii c <=? 57))%nat.

(** The exact value of a finite binary64 number is [m * 2^e]. The integer
    nearest to [m * 2^e * 10^f], the larger one when two are equally near
    (step "let n be an integer for which n / 10^f - x is as close to zero
    as possible; if there are two such n, pick the larger n"). *)
Definition nearestScaled (f : nat) (m : positive) (e : Z) : Z :=
  let num := Z.pos m * 10 ^ Z.of_nat f * 2 ^ Z.max 0 e in
  let den := 2 ^ Z.max 0 (- e) in
  (2 * num + den) / (2 * den).

(** [m * 2^e >= 10^21]. *)
Definition atLeast1e21 (m : positive) (e : Z) : bool :=
  10 ^ 21 * 2 ^ Z.max 0 (- e) <=? Z.pos m * 2 ^ Z.max 0 e.

(** The digits of [n] with a point before the last [f] of them, padded
    with zeros on the left up to [f + 1] digits. *)
Definition fixedDigits (f : nat) (n : Z) : list ascii :=
  let m := digits (Z.to_N n) in
  match f with
  | O => m
  | _ =>
      let m := repeat "0"%char (S f - length m) ++ m in
      let k := length m in
      firstn (k - f) m ++ "."%char :: skipn (k - f) m
  end.

(** The shortest decimal that reads back as the binary64 number [m * 2^e],
    for a number of at least 10^21 (there [e > 0] and the value is an
    integer). [Number::toString] asks for integers [n], [k], [s] with
    [10^(k-1) <= s < 10^k], [s * 10^(n-k)] rounding to the number and [k] as
    small as possible; of two candidates the nearer one is taken. *)
Section NumberToString.
Variables (m : positive) (e : Z).

Let X : Z := Z.pos m * 2 ^ e.

(** Twice the bounds of the interval of reals that round to [X]. *)
Let lo2 : Z :=
  if (Z.pos m =? 2 ^ 52) then 2 * X - 2 ^ (e - 1) else 2 * X - 2 ^ e.
Let hi2 : Z := 2 * X + 2 ^ e.

Definition readsBack (v : Z) : bool :=
  if Z.even (Z.pos m)
  then (lo2 <=? 2 * v) && (2 * v <=? hi2)
  else (lo2 <? 2 * v) && (2 * v <? hi2).

Definition digitCount : nat := length (digits (Z.to_N X)).

(** The candidate with [k] digits, if there is one: [(s, n)]. *)
Definition candidate (k : nat) : option (Z * nat) :=
  let p := 10 ^ Z.of_nat (digitCount - k) in
  let s1 := X / p in
  let s2 := s1 + 1 in
  let ok1 := readsBack (s1 * p) in
  let ok2 := readsBack (s2 * p) in
  let pick2 :=
    if s2 =? 10 ^ Z.of_nat k
    then (10 ^ Z.of_nat (k - 1), S digitCount)
    else (s2, digitCount) in
  let nearer2 := s2 * p - X <? X - s1 * p in
  let tie := s2 * p - X =? X - s1 * p in
  if ok1 && ok2 then
    if nearer2 || (tie && Z.even s2) then Some pick2
    else Some (s1, digitCount)
  else if ok1 then Some (s1, digitCount)
  else if ok2 then Some pick2
  else None.

Fixpoint shortest (k fuel : nat) : Z * nat :=
  match candidate k, fuel with
  | Some r, _ => r
  | None, O => (X, digitCount)
  | None, S fuel' => shortest (S k) fuel'
  end.

Definition exponential : list ascii :=
  let '(s, n) := shortest 1 digitCount in
  let ds := digits (Z.to_N s) in
  let expo := "e"%char :: "+"%char :: digits (N.of_nat (n - 1)) in
  match ds with
  | [] => expo
  | [d] => d :: expo
  | d :: rest => d :: "."%char :: rest ++ expo
  end.
End NumberToString.

(** [Number.prototype.toFixed(fractionDigits)], for [fractionDigits]
    between 0 and 100 (the sources pass 2, or nothing, which is 0). *)
Definition toFixed (fractionDigits : nat) (x : float) : string :=
  match Prim2SF x with
  | S754_nan => "NaN"
  | S754_infinity false => "Infinity"
  | S754_infinity true => "-Infinity"
  | S754_zero _ =>
      string_of_list_ascii (fixedDigits fractionDigits 0)
  | S754_finite s m e =>
      string_of_list_ascii
        ((if s then ["-"%char] else []) ++
         (if atLeast1e21 m e then exponential m e
          else fixedDigits fractionDigits (nearestScaled fractionDigits m e)))
  end.

(** How the evaluation of a function body ends: with a value, or with a
    thrown error. *)
Inductive Completion (A : Type) : Type :=
| Normal (value : A)
| Throw (error : string).
Arguments Normal {A} value.
Arguments Throw {A} error.

End Host.

(** ** Problem 3: the wallet page *)

Module Problem3.

(** [interface WalletBalance]. *)
Record WalletBalance := {
  currency : string;
  amount : float;
  blockchain : string;
}.

(** [interface FormattedWalletBalance extends WalletBalance]: the fields of
    the balance it was spread from ([...balance]) and the two added ones. *)
Record FormattedWalletBalance := {
  wallet : WalletBalance;
  formatted : string;
  usdValue : float;
}.

(** [interface WalletRowProps]: what a rendered row receives. *)
Module WalletRow.
Record Props := {
  className : string;
  key : string;
  amount : float;
  usdValue : float;
  formattedAmount : string;
}.
End WalletRow.

(** [BLOCKCHAIN_PRIORITIES], [DEFAULT_PRIORITY] and [getPriority]; the three
    variants declare the same table and the same lookup (the refactored one
    writes the literal -99 for [DEFAULT_PRIORITY]). *)
Definition BLOCKCHAIN_PRIORITIES : gmap string Z :=
  {[ "Osmosis" := 100; "Ethereum" := 50; "Arbitrum" := 30;
     "Zilliqa" := 20; "Neo" := 20 ]}.

Definition DEFAULT_PRIORITY : Z := -99.

Definition getPriority (blockchain : string) : Z :=
  default DEFAULT_PRIORITY (BLOCKCHAIN_PRIORITIES !! blockchain).

(** [prices[currency] * amount]: an absent price is [undefined], which [*]
    converts to NaN. *)
Definition priceOrUndefined (prices : gmap string float) (c : string) : float :=
  default Host.ToNumber_undefined (prices !! c).

(** [(prices[currency] ?? 0)]. *)
Definition priceOrZero (prices : gmap string float) (c : string) : float :=
  default 0%float (prices !! c).

(** *** exam/src/WalletPage.tsx, the exam component *)
Module Exam.

Definition keep (balance : WalletBalance) : bool :=
  let balancePriority := getPriority (blockchain balance) in
  (balancePriority >? DEFAULT_PRIORITY) && (0 <? amount balance)%float.

Definition compare (lhs rhs : WalletBalance) : Z :=
  let leftPriority := getPriority (blockchain lhs) in
  let rightPriority := getPriority (blockchain rhs) in
  if leftPriority >? rightPriority then -1
  else if rightPriority >? leftPriority then 1
  else 0.

Definition sortedBalances (balances : list WalletBalance) : list WalletBalance :=
  Host.sort compare (List.filter keep balances).

Definition row (prices : gmap string float) (balance : WalletBalance)
  : WalletRow.Props :=
  let usdValue := (priceOrUndefined prices (currency balance) * amount balance)%float in
  let formattedAmount := Host.toFixed 0 (amount balance) in
  {| WalletRow.className := "wallet-row";
     WalletRow.key := blockchain balance +:+ "-" +:+ currency balance;
     WalletRow.amount := amount balance;
     WalletRow.usdValue := usdValue;
     WalletRow.formattedAmount := formattedAmount |}.

Definition rows (balances : list WalletBalance) (prices : gmap string float)
  : list WalletRow.Props :=
  map (row prices) (sortedBalances balances).

(** The component body, from the balances and prices its hooks (or its mock
    props) supply to the rows it returns. It holds no [throw], and the
    built-ins it calls ([filter], [sort], [map], [toFixed], [*], [>] and
    the property reads) raise nothing on these arguments. *)
Definition WalletPage (balances : list WalletBalance) (prices : gmap string float)
  : Host.Completion (list WalletRow.Props) :=
  Host.Normal (rows balances prices).

End Exam.

(** *** refactored.tsx *)
Module Refactored.

Definition keep (balance : WalletBalance) : bool :=
  let balancePriority := getPriority (blockchain balance) in
  (balancePriority >? -99) && (0 <? amount balance)%float.

Definition compare (lhs rhs : WalletBalance) : Z :=
  let leftPriority := getPriority (blockchain lhs) in
  let rightPriority := getPriority (blockchain rhs) in
  rightPriority - leftPriority.

Definition format (prices : gmap string float) (balance : WalletBalance)
  : FormattedWalletBalance :=
  {| wallet := balance;
     formatted := Host.toFixed 2 (amount balance);
     usdValue := (priceOrUndefined prices (currency balance) * amount balance)%float |}.

Definition formattedBalances (balances : list WalletBalance)
    (prices : gmap string float) : list FormattedWalletBalance :=
  map (format prices) (Host.sort compare (List.filter keep balances)).

(** The component body up to the rows it renders; it holds no [throw]. *)
Definition WalletPage (balances : list WalletBalance) (prices : gmap string float)
  : Host.Completion (list FormattedWalletBalance) :=
  Host.Normal (formattedBalances balances prices).

End Refactored.

(** *** exam/src/WalletPage.tsx, the optimal component *)
Module Optimal.

Definition sortByPriorityDesc (lhs rhs : WalletBalance) : Z :=
  getPriority (blockchain rhs) - getPriority (blockchain lhs).

Definition keep (balance : WalletBalance) : bool :=
  (getPriority (blockchain balance) >? DEFAULT_PRIORITY)
  && (0 <? amount balance)%float.

Definition format (prices : gmap string float) (balance : WalletBalance)
  : FormattedWalletBalance :=
  let formatted := Host.toFixed 2 (amount balance) in
  let usdValue := (priceOrZero prices (currency balance) * amount balance)%float in
  {| wallet := balance; formatted := formatted; usdValue := usdValue |}.

Definition formattedBalances (balances : list WalletBalance)
    (prices : gmap string float) : list FormattedWalletBalance :=
  map (format prices) (Host.sort sortByPriorityDesc (List.filter keep balances)).

(** The component body up to the rows it renders; it holds no [throw]. *)
Definition WalletPage (balances : list WalletBalance) (prices : gmap string float)
  : Host.Completion (list FormattedWalletBalance) :=
  Host.Normal (formattedBalances balances prices).

End Optimal.

(** *** The demonstration page: the mock data it passes to the exam
    component. *)
Module App.

Definition mockBalances : list WalletBalance :=
  [ {| currency := "ETH"; amount := 2.5; blockchain := "Ethereum" |};
    {| currency := "OSMO"; amount := 100; blockchain := "Osmosis" |};
    {| currency := "ARB"; amount := 50; blockchain := "Arbitrum" |};
    {| currency := "ZIL"; amount := 1000; blockchain := "Zilliqa" |};
    {| currency := "NEO"; amount := 25; blockchain := "Neo" |};
    {| currency := "BTC"; amount := 0.1; blockchain := "Bitcoin" |};
    {| currency := "ETH"; amount := -1; blockchain := "Ethereum" |} ].

Definition mockPrices : gmap string float :=
  {[ "ETH" := 2000; "OSMO" := 2.5; "ARB" := 1.2; "ZIL" := 0.02;
     "NEO" := 15; "BTC" := 40000 ]}%float.

End App.

End Problem3.

(** ** Problem 1: sum to n *)

Module Problem1.

(** [(n * (n + 1)) / 2]: the product of two consecutive integers is even,
    so the quotient is exact. *)
Definition sum_to_n_a (n : Z) : Z := (n * (n + 1)) / 2.

(** The [for] loop of [sum_to_n_b], from the state [(i, sum)]. *)
Equations sum_to_n_b_loop (n i sum : Z) : Z by wf (Z.to_nat (n + 1 - i)) lt :=
  sum_to_n_b_loop n i sum with Z_le_dec i n := {
    | left _ => sum_to_n_b_loop n (i + 1) (sum + i)
    | right _ => sum
  }.
Next Obligation. lia. Qed.

Definition sum_to_n_b (n : Z) : Z := sum_to_n_b_loop n 1 0.

Equations sum_to_n_c (n : Z) : Z by wf (Z.to_nat n) lt :=
  sum_to_n_c n with Z_le_dec n 0 := {
    | left _ => 0
    | right _ => n + sum_to_n_c (n - 1)
  }.
Next Obligation. lia. Qed.

End Problem1.

(** ** Problem 1, the module of implementations with input validation *)

Module SumToN.

Import Host.

(** Sequencing of two evaluations: a thrown error ends the evaluation. *)
#[export] Instance Completion_bind : MBind Completion :=
  fun A B k c =>
    match c with
    | Normal a => k a
    | Throw e => Throw e
    end.

(** The value of a number that is an integer, [None] for the numbers that
    [Number.isInteger] refuses: NaN, the infinities and the finite numbers
    with a fractional part. *)
Definition integerValue (x : float) : option Z :=
  match Prim2SF x with
  | S754_zero _ => Some 0
  | S754_finite s m e =>
      let magnitude :=
        if 0 <=? e then Some (Z.pos m * 2 ^ e)
        else if Z.pos m mod 2 ^ (- e) =? 0 then Some (Z.pos m / 2 ^ (- e))
        else None in
      option_map (fun k => if s then - k else k) magnitude
  | _ => None
  end.

Definition Number_isInteger (x : float) : bool :=
  match integerValue x with Some _ => true | None => false end.

(** The integer that a validated input stands for; the sums below are
    computed on it. *)
Definition numberToZ (x : float) : Z := default 0 (integerValue x).

Definition invalidInput : string := "Input must be a positive integer".

Definition validateInput (n : float) : Completion unit :=
  if negb (Number_isInteger n) || (n <=? 0)%float
  then Throw invalidInput
  else Normal tt.

(** The [for] loop is that of [sum_to_n_b]. *)
Definition sumToNIterative (n : float) : Completion Z :=
  _ ← validateInput n;
  Normal (Problem1.sum_to_n_b_loop (numberToZ n) 1 0).

Definition sumToNMathematical (n : float) : Completion Z :=
  _ ← validateInput n;
  let n := numberToZ n in
  Normal ((n * (n + 1)) / 2).

(** The recursive calls, each of which validates its argument again; on an
    integer the validation is the test [n <= 0]. *)
Equations sumToNRecursive_from (n : Z) : Completion Z by wf (Z.to_nat n) lt :=
  sumToNRecursive_from n with Z_le_dec n 0 := {
    | left _ => Throw invalidInput
    | right _ with Z.eq_dec n 1 := {
        | left _ => Normal 1
        | right _ =>
            match sumToNRecursive_from (n - 1) with
            | Normal r => Normal (n + r)
            | Throw e => Throw e
            end
      }
  }.
Next Obligation. lia. Qed.

Definition sumToNRecursive (n : float) : Completion Z :=
  _ ← validateInput n;
  sumToNRecursive_from (numberToZ n).

(** [Array.from({ length: n }, (_, index) => index + 1)]: an array of more
    than 2^32 - 1 elements cannot be created. *)
Definition Array_from_length (n : Z) (mapFn : Z -> Z) : Completion (list Z) :=
  if 2 ^ 32 - 1 <? n then Throw "Invalid array length"
  else Normal (map mapFn (seqZ 0 n)).

Definition sumToNFunctional (n : float) : Completion Z :=
  _ ← validateInput n;
  numbers ← Array_from_length (numberToZ n) (fun index => index + 1);
  Normal (fold_left (fun sum num => sum + num) numbers 0).

(** The [while] loop passes through the states of the [for] loop. *)
Definition sumToNWhile (n : float) : Completion Z :=
  _ ← validateInput n;
  Normal (Problem1.sum_to_n_b_loop (numberToZ n) 1 0).

(** The values that the generator [range(start, end)] yields. *)
Definition range (start end_ : Z) : list Z := seqZ start (end_ + 1 - start).

Definition sumToNGenerator (n : float) : Completion Z :=
  _ ← validateInput n;
  Normal (fold_left (fun sum num => sum + num) (range 1 (numberToZ n)) 0).

(** [ToInt32]: the operands of [>>] are taken modulo 2^32, as signed 32-bit
    integers. *)
Definition ToInt32 (x : Z) : Z := (x + 2 ^ 31) mod 2 ^ 32 - 2 ^ 31.

Definition sumToNBitManipulation (n : float) : Completion Z :=
  _ ← validateInput n;
  let n := numberToZ n in
  Normal (Z.shiftr (ToInt32 (n * (n + 1))) 1).

End SumToN.

(** ** Problem 2: the token swap form *)

Module SwapForm.

Import Host.

(** [value.replace(/[^0-9.]/g, '')] *)
Definition digitOrPoint (c : ascii) : bool := isDigit c || Ascii.eqb c ".".

(** [value.split('.')]: the pieces between the points, at least one. *)
Fixpoint split_point (value : list ascii) : list (list ascii) :=
  match value with
  | [] => [[]]
  | c :: rest =>
      if Ascii.eqb c "." then [] :: split_point rest
      else match split_point rest with
           | part :: parts => (c :: part) :: parts
           | [] => [[c]]
           end
  end.

(** The value that [handleAmountInput] writes back into the amount field:
    only digits and points are kept, and of several points only the
    first. *)
Definition handleAmountInput_value (value : list ascii) : list ascii :=
  let value := List.filter digitOrPoint value in
  let parts := split_point value in
  if (2 <? length parts)%nat
  then hd [] parts ++ "."%char :: concat (tl parts)
  else value.

(** A number in a condition counts as true unless it is 0, -0 or NaN. *)
Definition truthy (x : float) : bool := negb (is_zero x || is_nan x).

(** A [Map] keyed by strings: its entries in the order of their first
    insertion. [set] on a key that is present replaces the value in place. *)
Definition Map_get {V : Type} (key : string) (m : list (string * V)) : option V :=
  snd <$> List.find (fun entry => bool_decide (fst entry = key)) m.

Fixpoint Map_set {V : Type} (key : string) (value : V) (m : list (string * V))
  : list (string * V) :=
  match m with
  | [] => [(key, value)]
  | (key', value') :: m' =>
      if decide (key' = key) then (key, value) :: m'
      else (key', value') :: Map_set key value m'
  end.

(** One entry of the price feed; the price may be missing. *)
Record PriceEntry := {
  entry_currency : string;
  entry_date : string;
  entry_price : option float;
}.

(** What [tokenMap] holds for a currency, and a token of the list. *)
Record DatedPrice := {
  dated_currency : string;
  dated_price : float;
  dated_date : option Z;
}.

Record Token := {
  token_currency : string;
  token_price : float;
}.

(** [a > b] on two dates: false when either is an invalid date. *)
Definition laterThan (a b : option Z) : bool :=
  match a, b with
  | Some x, Some y => y <? x
  | _, _ => false
  end.

Section FetchPrices.
(** The time value of [new Date(text)], [None] for an invalid date, and
    [String.prototype.localeCompare]. *)
Variable Date_time : string -> option Z.
Variable localeCompare : string -> string -> Z.

(** The body of [data.forEach] in [fetchPrices]. *)
Definition collect (tokenMap : list (string * DatedPrice)) (item : PriceEntry)
  : list (string * DatedPrice) :=
  let key := entry_currency item in
  match entry_price item with
  | Some price =>
      if truthy price && (0 <? price)%float then
        match Map_get key tokenMap with
        | None =>
            Map_set key {| dated_currency := entry_currency item;
                           dated_price := price;
                           dated_date := Date_time (entry_date item) |} tokenMap
        | Some existing =>
            let itemDate := Date_time (entry_date item) in
            if laterThan itemDate (dated_date existing) then
              Map_set key {| dated_currency := entry_currency item;
                             dated_price := price;
                             dated_date := itemDate |} tokenMap
            else tokenMap
        end
      else tokenMap
  | None => tokenMap
  end.

(** [tokens]: the values of the map, without their dates, sorted by
    currency. *)
Definition fetchPrices_tokens (data : list PriceEntry) : list Token :=
  Host.sort
    (fun a b => localeCompare (token_currency a) (token_currency b))
    (map (fun item => {| token_currency := dated_currency item;
                         token_price := dated_price item |})
       (map snd (fold_left collect data []))).

(** [prices]: the lookup object built from the tokens. *)
Definition fetchPrices_prices (tokens : list Token) : gmap string float :=
  fold_left (fun acc token => <[token_currency token := token_price token]> acc)
    tokens ∅.

End FetchPrices.

(** The module's variables that the handlers of the token selection read
    and write; [None] is [null]. *)
Record Selection := {
  tokens : list Token;
  prices : gmap string float;
  selectedFromToken : option Token;
  selectedToToken : option Token;
  currentModalTarget : option string;
}.

Definition openTokenModal (target : string) (s : Selection) : Selection :=
  {| tokens := tokens s; prices := prices s;
     selectedFromToken := selectedFromToken s;
     selectedToToken := selectedToToken s;
     currentModalTarget := Some target |}.

Definition closeTokenModal (s : Selection) : Selection :=
  {| tokens := tokens s; prices := prices s;
     selectedFromToken := selectedFromToken s;
     selectedToToken := selectedToToken s;
     currentModalTarget := None |}.

Definition selectToken (currency : string) (s : Selection) : Selection :=
  match List.find (fun t => bool_decide (token_currency t = currency)) (tokens s) with
  | None => s
  | Some token =>
      closeTokenModal
        (if bool_decide (currentModalTarget s = Some "from"%string)
         then {| tokens := tokens s; prices := prices s;
                 selectedFromToken := Some token;
                 selectedToToken := selectedToToken s;
                 currentModalTarget := currentModalTarget s |}
         else {| tokens := tokens s; prices := prices s;
                 selectedFromToken := selectedFromToken s;
                 selectedToToken := Some token;
                 currentModalTarget := currentModalTarget s |})
  end.

Definition swapTokenDirection (s : Selection) : Selection :=
  match selectedFromToken s, selectedToToken s with
  | Some fromToken, Some toToken =>
      {| tokens := tokens s; prices := prices s;
         selectedFromToken := Some toToken;
         selectedToToken := Some fromToken;
         currentModalTarget := currentModalTarget s |}
  | _, _ => s
  end.

Definition resetForm (s : Selection) : Selection :=
  {| tokens := tokens s; prices := prices s;
     selectedFromToken := None;
     selectedToToken := None;
     currentModalTarget := currentModalTarget s |}.

(** [prices[currency]] in arithmetic: a missing entry is [undefined]. *)
Definition priceOf (prices : gmap string float) (currency : string) : float :=
  default Host.ToNumber_undefined (prices !! currency).

(** The number that [calculateExchange] formats into the receiving field,
    from the amount parsed off the sending field; [None] where it clears
    the field instead. *)
Definition calculateExchange_result (s : Selection) (amount : float)
  : option float :=
  match selectedFromToken s, selectedToToken s with
  | Some fromToken, Some toToken =>
      if is_nan amount || (amount <=? 0)%float then None
      else
        let fromPrice := priceOf (prices s) (token_currency fromToken) in
        let toPrice := priceOf (prices s) (token_currency toToken) in
        Some ((amount * fromPrice) / toPrice)%float
  | _, _ => None
  end.

(** What the user and the timers can make the page do to the selection. *)
Inductive Event :=
| OpenTokenModal (target : string)
| CloseTokenModal
| SelectToken (currency : string)
| SwapTokenDirection
| ResetForm.

Definition handle (s : Selection) (event : Event) : Selection :=
  match event with
  | OpenTokenModal target => openTokenModal target s
  | CloseTokenModal => closeTokenModal s
  | SelectToken currency => selectToken currency s
  | SwapTokenDirection => swapTokenDirection s
  | ResetForm => resetForm s
  end.

(** The variables once [init] has fetched the prices of the feed [data]. *)
Definition loaded (Date_time : string -> option Z)
    (localeCompare : string -> string -> Z) (data : list PriceEntry)
  : Selection :=
  let fetched := fetchPrices_tokens Date_time localeCompare data in
  {| tokens := fetched; prices := fetchPrices_prices fetched;
     selectedFromToken := None; selectedToToken := None;
     currentModalTarget := None |}.

End SwapForm.

(** ** Problem 2: the token swap application with its state manager *)

Module SwapApp.

Import Host.

Definition PRECISION : nat := 6.

Module ERROR_CODES.
Definition INSUFFICIENT_BALANCE : string := "INSUFFICIENT_BALANCE".
Definition SAME_TOKEN : string := "SAME_TOKEN".
Definition INVALID_AMOUNT : string := "INVALID_AMOUNT".
End ERROR_CODES.

Record TokenData := {
  symbol : string;
  name : string;
  icon : string;
}.

(** [class AppState]: its fields. The two [Map]s are only read by key. *)
Record AppState := {
  tokenPrices : gmap string float;
  availableTokens : list TokenData;
  userBalances : gmap string float;
  selectedFromToken : string;
  selectedToToken : string;
  isLoading : bool;
}.

(** [value || fallback] on a number that may be absent. *)
Definition orElse (value : option float) (fallback : float) : float :=
  match value with
  | Some x => if SwapForm.truthy x then x else fallback
  | None => fallback
  end.

(** [this.tokenPrices.get(symbol) || null]: [None] is [null]. *)
Definition getTokenPrice (state : AppState) (symbol : string) : option float :=
  match tokenPrices state !! symbol with
  | Some price => if SwapForm.truthy price then Some price else None
  | None => None
  end.

Definition getAvailableTokens (state : AppState) : list TokenData :=
  List.filter (fun token => bool_decide (is_Some (tokenPrices state !! symbol token)))
    (availableTokens state).

Definition getUserBalance (state : AppState) (symbol : string) : float :=
  orElse (userBalances state !! symbol) 0.

Definition setUserBalances (state : AppState) (balances : gmap string float)
  : AppState :=
  {| tokenPrices := tokenPrices state;
     availableTokens := availableTokens state;
     userBalances := balances;
     selectedFromToken := selectedFromToken state;
     selectedToToken := selectedToToken state;
     isLoading := isLoading state |}.

Definition setSelectedTokens (state : AppState) (fromToken toToken : string)
  : AppState :=
  {| tokenPrices := tokenPrices state;
     availableTokens := availableTokens state;
     userBalances := userBalances state;
     selectedFromToken := fromToken;
     selectedToToken := toToken;
     isLoading := isLoading state |}.

(** [!price] on a price that is a number or [null]. *)
Definition unusable (price : option float) : bool :=
  match price with
  | Some x => negb (SwapForm.truthy x)
  | None => true
  end.

Definition calculateExchangeRate (state : AppState) (fromToken toToken : string)
  : option float :=
  let fromPrice := getTokenPrice state fromToken in
  let toPrice := getTokenPrice state toToken in
  if unusable fromPrice || unusable toPrice then None
  else match fromPrice, toPrice with
       | Some fromPrice, Some toPrice => Some (fromPrice / toPrice)%float
       | _, _ => None
       end.

Definition calculateToAmount (state : AppState) (fromAmount : float)
    (fromToken toToken : string) : option float :=
  let rate := calculateExchangeRate state fromToken toToken in
  match rate with
  | Some rate => if SwapForm.truthy rate then Some (fromAmount * rate)%float else None
  | None => None
  end.

Definition calculateFromAmount (state : AppState) (toAmount : float)
    (fromToken toToken : string) : option float :=
  let rate := calculateExchangeRate state toToken fromToken in
  match rate with
  | Some rate => if SwapForm.truthy rate then Some (toAmount * rate)%float else None
  | None => None
  end.

(** [ValidationService] *)
Record SwapState := {
  fromAmount : float;
  toAmount : float;
}.

Record ValidationResult := {
  isValid : bool;
  message : string;
  code : option string;
}.

Definition validateSwap (swapState : SwapState) (appState : AppState)
  : ValidationResult :=
  let fromAmount := fromAmount swapState in
  let toAmount := toAmount swapState in
  if negb (SwapForm.truthy fromAmount) || negb (SwapForm.truthy toAmount)
     || (fromAmount <=? 0)%float || (toAmount <=? 0)%float
  then {| isValid := false;
          message := "Please enter valid amounts";
          code := Some ERROR_CODES.INVALID_AMOUNT |}
  else if bool_decide (selectedFromToken appState = selectedToToken appState)
  then {| isValid := false;
          message := "Please select different tokens";
          code := Some ERROR_CODES.SAME_TOKEN |}
  else
    let userBalance := getUserBalance appState (selectedFromToken appState) in
    if (userBalance <? fromAmount)%float
    then {| isValid := false;
            message := "Insufficient balance";
            code := Some ERROR_CODES.INSUFFICIENT_BALANCE |}
    else {| isValid := true;
            message := "Swap " +:+ toFixed PRECISION fromAmount +:+ " "
                       +:+ selectedFromToken appState +:+ " for "
                       +:+ toFixed PRECISION toAmount +:+ " "
                       +:+ selectedToToken appState;
            code := None |}.

Definition isValidToken (token : string) (appState : AppState) : bool :=
  existsb (fun t => bool_decide (symbol t = token)) (getAvailableTokens appState).

(** [ModalService.updateBalancesAfterSwap], on the application state: the
    balances are copied into a fresh object, the two entries are written (the
    credit last), and the object becomes the new map of balances. *)
Definition updateBalancesAfterSwap (state : AppState) (fromToken toToken : string)
    (fromAmount toAmount : float) : AppState :=
  let currentFromBalance := getUserBalance state fromToken in
  let currentToBalance := getUserBalance state toToken in
  let newBalances := userBalances state in
  let newBalances := <[fromToken := (currentFromBalance - fromAmount)%float]> newBalances in
  let newBalances := <[toToken := (currentToBalance + toAmount)%float]> newBalances in
  setUserBalances state newBalances.

(** [ApiService.fetchTokenPrices]. One entry of the price feed: its price is
    a number or missing, and a missing currency reads as the empty string
    does, as false. [parseFloat] of a number reads the number back from its
    own rendering. *)
Record PriceData := {
  currency : string;
  price : option float;
}.

Definition fallbackPrices : gmap string float :=
  {[ "SWTH" := 0.0001; "ETH" := 2000; "BTC" := 40000;
     "USDC" := 1; "USDT" := 1; "DAI" := 1 ]}%float.

Definition collectPrice (acc : gmap string float) (token : PriceData)
  : gmap string float :=
  match price token with
  | Some p =>
      if SwapForm.truthy p && negb (String.eqb (currency token) "")
      then <[currency token := p]> acc
      else acc
  | None => acc
  end.

(** [response] is the feed, or [None] when it could not be fetched. *)
Definition fetchTokenPrices (response : option (list PriceData))
  : gmap string float :=
  match response with
  | Some data => fold_left collectPrice data ∅
  | None => fallbackPrices
  end.

Definition setTokenPrices (state : AppState) (prices : gmap string float)
  : AppState :=
  {| tokenPrices := prices;
     availableTokens := availableTokens state;
     userBalances := userBalances state;
     selectedFromToken := selectedFromToken state;
     selectedToToken := selectedToToken state;
     isLoading := isLoading state |}.

Definition MIN_BALANCE : float := 100.
Definition MAX_BALANCE : float := 1100.

(** [TokenSwapApp.generateMockBalances]: [random i] is what the call
    number [i] of [Math.random] returns, counted from [first]. *)
Fixpoint mockBalances (random : nat -> float) (first : nat)
    (tokens : list TokenData) (balances : gmap string float)
  : gmap string float :=
  match tokens with
  | [] => balances
  | token :: tokens =>
      mockBalances random (S first) tokens
        (<[symbol token := (random first * (MAX_BALANCE - MIN_BALANCE)
                            + MIN_BALANCE)%float]> balances)
  end.

Definition generateMockBalances (random : nat -> float) (state : AppState)
  : gmap string float :=
  mockBalances random 0 (getAvailableTokens state) ∅.

End SwapApp.

(** ** Vocabulary of the statements *)

(** A comparator that orders by a key, larger keys first. *)
Definition byKeyDesc {A : Type} (comparefn : A -> A -> Z) (key : A -> Z) : Prop :=
  forall a b, comparefn a b <= 0 <-> key b <= key a.

Definition descending {A : Type} (key : A -> Z) : A -> A -> Prop :=
  fun a b => key b <= key a.

(** The priority of a balance's chain. *)
Definition priorityOf (b : Problem3.WalletBalance) : Z :=
  Problem3.getPriority (Problem3.blockchain b).

(** What the filter stage is to retain: a recognized chain and a positive
    amount. *)
Definition retained (b : Problem3.WalletBalance) : Prop :=
  Problem3.DEFAULT_PRIORITY < priorityOf b /\
  (0 <? Problem3.amount b)%float = true.

#[local] Instance retained_dec b : Decision (retained b).
Proof. unfold retained. apply _. Defined.

(** The balances of one priority, in the order of the list. *)
Definition ofPriority (p : Z) (l : list Problem3.WalletBalance)
  : list Problem3.WalletBalance :=
  List.filter (fun b => priorityOf b =? p) l.

(** A string renders a number with exactly [f] decimal digits: an optional
    minus sign, one or more digits, a point, and [f] digits. *)
Definition stripMinus (cs : list ascii) : list ascii :=
  match cs with
  | c :: cs' => if Ascii.eqb c "-" then cs' else cs
  | [] => []
  end.

Definition hasDecimals (f : nat) (s : string) : bool :=
  let cs := stripMinus (list_ascii_of_string s) in
  let k := length cs in
  let a := firstn (k - S f) cs in
  let b := skipn (k - S f) cs in
  (0 <? length a)%nat && forallb Host.isDigit a &&
  match b with
  | c :: ds => Ascii.eqb c "." && (length ds =? f)%nat && forallb Host.isDigit ds
  | [] => false
  end.

(** A number is finite and of magnitude below 10^21, the range in which
    [toFixed] writes fixed-point notation. *)
Definition fixedRange (x : float) : bool :=
  match Prim2SF x with
  | S754_zero _ => true
  | S754_finite _ m e => negb (Host.atLeast1e21 m e)
  | _ => false
  end.

(** Two rows next to each other in a list, [a] first. *)
Definition adjacent {A : Type} (l : list A) (a b : A) : Prop :=
  exists i : nat, l !! i = Some a /\ l !! S i = Some b.

(** The scenario of the balance list with a zero and a negative amount. *)
Definition scenario : list Problem3.WalletBalance :=
  [ {| Problem3.currency := "ETH"; Problem3.amount := 10;
       Problem3.blockchain := "Ethereum" |};
    {| Problem3.currency := "OSMO"; Problem3.amount := 0;
       Problem3.blockchain := "Osmosis" |};
    {| Problem3.currency := "ZIL"; Problem3.amount := -5;
       Problem3.blockchain := "Zilliqa" |};
    {| Problem3.currency := "ARB"; Problem3.amount := 20;
       Problem3.blockchain := "Arbitrum" |};
    {| Problem3.currency := "NEO"; Problem3.amount := 15;
       Problem3.blockchain := "Neo" |} ].

(** The keys of the static priority table. *)
Definition configuredChains : list string :=
  ["Osmosis"; "Ethereum"; "Arbitrum"; "Zilliqa"; "Neo"]%string.

(** The chain and the currency of a balance, which the exam component joins
    into the key of its row. *)
Definition chainAndCurrency (b : Problem3.WalletBalance) : string * string :=
  (Problem3.blockchain b, Problem3.currency b).

(** The number of points in a string. *)
Definition points (value : list ascii) : nat :=
  length (List.filter (fun c => Ascii.eqb c ".") value).

(** The digits of a string, in their order. *)
Definition digitsOf (value : list ascii) : list ascii :=
  List.filter Host.isDigit value.

(** What is kept of several points: the first piece, a point, and the rest
    without its points. *)
Definition firstPointOnly (value : list ascii) : list ascii :=
  hd [] (SwapForm.split_point value) ++ "."%char :: concat (tl (SwapForm.split_point value)).

(** An entry of the price feed with a price above 0. *)
Definition pricedAt (item : SwapForm.PriceEntry) (p : float) : Prop :=
  SwapForm.entry_price item = Some p /\ (0 <? p)%float = true.

(** What the token map holds for a currency after the entries [processed]:
    the price and date of one of them, than which no priced entry of that
    currency is later. *)
Definition latestFor (Date_time : string -> option Z)
    (processed : list SwapForm.PriceEntry) (key : string)
    (held : SwapForm.DatedPrice) : Prop :=
  SwapForm.dated_currency held = key /\
  (0 <? SwapForm.dated_price held)%float = true /\
  exists item,
    In item processed /\ SwapForm.entry_currency item = key /\
    SwapForm.entry_price item = Some (SwapForm.dated_price held) /\
    SwapForm.dated_date held = Date_time (SwapForm.entry_date item) /\
    forall item' p', In item' processed ->
      SwapForm.entry_currency item' = key -> pricedAt item' p' ->
      SwapForm.laterThan (Date_time (SwapForm.entry_date item'))
        (SwapForm.dated_date held) = false.

Definition collected (Date_time : string -> option Z)
    (processed : list SwapForm.PriceEntry)
    (tokenMap : list (string * SwapForm.DatedPrice)) : Prop :=
  List.NoDup (map fst tokenMap) /\
  (forall key held, In (key, held) tokenMap ->
     latestFor Date_time processed key held) /\
  (forall item p, In item processed -> pricedAt item p ->
     In (SwapForm.entry_currency item) (map fst tokenMap)).

(** Every balance that the state manager reports is at least 0. *)
Definition balancesNonnegative (state : SwapApp.AppState) : Prop :=
  forall symbol, (0 <=? SwapApp.getUserBalance state symbol)%float = true.

(** A number that is at least 0: +0, -0, a positive number or +Infinity. *)
Definition nonnegative (x : spec_float) : Prop :=
  match x with
  | S754_zero _ | S754_finite false _ _ | S754_infinity false => True
  | _ => False
  end.

(** A token of the list, with its positive price in the lookup. *)
Definition listedAndPriced (s : SwapForm.Selection) (token : SwapForm.Token) : Prop :=
  In token (SwapForm.tokens s) /\
  SwapForm.prices s !! SwapForm.token_currency token
  = Some (SwapForm.token_price token) /\
  (0 <? SwapForm.token_price token)%float = true.

Definition selectionPriced (s : SwapForm.Selection) : Prop :=
  forall token,
    SwapForm.selectedFromToken s = Some token \/
    SwapForm.selectedToToken s = Some token ->
    listedAndPriced s token.

(** An entry of the feed that [fetchTokenPrices] records. *)
Definition recorded (token : SwapApp.PriceData) (c : string) (p : float) : Prop :=
  SwapApp.currency token = c /\ SwapApp.price token = Some p /\
  SwapForm.truthy p = true /\ c <> ""%string.

(** * Properties *)

Import Problem3 Problem1.

(** ** The built-ins on known values *)

Example toFixed_examples :
  Host.toFixed 2 2.5 = "2.50"%string /\
  Host.toFixed 0 2.5 = "3"%string /\
  Host.toFixed 2 1.005 = "1.00"%string /\
  Host.toFixed 2 0.1 = "0.10"%string /\
  Host.toFixed 2 (-0.001) = "-0.00"%string /\
  Host.toFixed 0 (-2.5) = "-3"%string /\
  Host.toFixed 2 0 = "0.00"%string /\
  Host.toFixed 2 999999999999999900000 = "999999999999999868928.00"%string /\
  Host.toFixed 2 1e21 = "1e+21"%string /\
  Host.toFixed 2 1180591620717411303424 = "1.1805916207174113e+21"%string /\
  Host.toFixed 2 0x1.fffffffffffffp1023 = "1.7976931348623157e+308"%string /\
  Host.toFixed 2 infinity = "Infinity"%string /\
  Host.toFixed 2 nan = "NaN"%string.
Proof. vm_compute. repeat split. Qed.

Example hasDecimals_examples :
  hasDecimals 2 "2.50" = true /\ hasDecimals 2 "3" = false /\
  hasDecimals 2 "-0.00" = true /\ hasDecimals 2 "1e+21" = false /\
  hasDecimals 2 ".50" = false /\ hasDecimals 2 "1.500" = false /\
  hasDecimals 2 "Infinity" = false.
Proof. vm_compute. repeat split. Qed.

Example sort_examples :
  Host.sort (fun a b : Z => a - b) [3; 1; 2] = [1; 2; 3] /\
  Host.sort (fun a b : Z * Z => fst b - fst a) [(1, 0); (2, 1); (1, 2); (2, 3)]
  = [(2, 1); (2, 3); (1, 0); (1, 2)].
Proof. vm_compute. repeat split. Qed.

(** ** The sort built-in *)

Section SortFacts.
Context {A : Type}.
Implicit Types (comparefn : A -> A -> Z) (key : A -> Z) (l : list A).

Lemma sort_insert_perm comparefn x l :
  Permutation (Host.sort_insert comparefn x l) (x :: l).
Proof.
  induction l as [|y l IH]; simpl; [reflexivity|].
  destruct (comparefn x y <=? 0); [reflexivity|].
  rewrite IH. apply perm_swap.
Qed.

Lemma sort_perm comparefn l : Permutation (Host.sort comparefn l) l.
Proof.
  induction l as [|x l IH]; simpl; [constructor|].
  rewrite sort_insert_perm. now constructor.
Qed.

Lemma sort_In comparefn l x : In x (Host.sort comparefn l) <-> In x l.
Proof.
  split; apply Permutation_in; [|symmetry]; apply sort_perm.
Qed.

(** Only the sign of the comparator matters, and of the sign only whether it
    is positive. *)
Lemma sort_insert_ext comparefn1 comparefn2 x l :
  (forall a b, (comparefn1 a b <=? 0) = (comparefn2 a b <=? 0)) ->
  Host.sort_insert comparefn1 x l = Host.sort_insert comparefn2 x l.
Proof.
  intros Hsign. induction l as [|y l IH]; simpl; [reflexivity|].
  rewrite Hsign, IH. reflexivity.
Qed.

Lemma sort_ext comparefn1 comparefn2 l :
  (forall a b, (comparefn1 a b <=? 0) = (comparefn2 a b <=? 0)) ->
  Host.sort comparefn1 l = Host.sort comparefn2 l.
Proof.
  intros Hsign. induction l as [|x l IH]; simpl; [reflexivity|].
  rewrite IH. now apply sort_insert_ext.
Qed.

Lemma sort_insert_sorted comparefn key x l :
  byKeyDesc comparefn key ->
  StronglySorted (descending key) l ->
  StronglySorted (descending key) (Host.sort_insert comparefn x l).
Proof.
  intros Hcmp. induction 1 as [|y l Hl IH Hy]; simpl.
  - repeat constructor.
  - destruct (Z.leb_spec (comparefn x y) 0) as [Hle|Hgt].
    + apply Hcmp in Hle.
      constructor; [now constructor|].
      constructor; [exact Hle|].
      eapply List.Forall_impl; [|exact Hy].
      unfold descending. intros; lia.
    + constructor; [exact IH|].
      assert (Hxy : key x <= key y).
      { destruct (Z.le_gt_cases (key y) (key x)) as [H|H]; [|lia].
        apply Hcmp in H. lia. }
      eapply Permutation_Forall; [symmetry; apply sort_insert_perm|].
      constructor; assumption.
Qed.

Lemma sort_sorted comparefn key l :
  byKeyDesc comparefn key ->
  StronglySorted (descending key) (Host.sort comparefn l).
Proof.
  intros Hcmp. induction l as [|x l IH]; simpl; [constructor|].
  now apply sort_insert_sorted.
Qed.

(** Stability: the elements of any one key keep their order. *)
Lemma sort_insert_stable comparefn key p x l :
  byKeyDesc comparefn key ->
  List.filter (fun a => key a =? p) (Host.sort_insert comparefn x l)
  = List.filter (fun a => key a =? p) (x :: l).
Proof.
  intros Hcmp. induction l as [|y l IH]; [reflexivity|].
  cbn [Host.sort_insert].
  destruct (Z.leb_spec (comparefn x y) 0) as [Hle|Hgt]; [reflexivity|].
  assert (Hxy : key x < key y).
  { destruct (Z.le_gt_cases (key y) (key x)) as [H|H]; [|lia].
    apply Hcmp in H. lia. }
  cbn [List.filter] in *. rewrite IH.
  destruct (Z.eqb_spec (key x) p), (Z.eqb_spec (key y) p);
    try reflexivity; lia.
Qed.

Lemma sort_stable comparefn key p l :
  byKeyDesc comparefn key ->
  List.filter (fun a => key a =? p) (Host.sort comparefn l)
  = List.filter (fun a => key a =? p) l.
Proof.
  intros Hcmp. induction l as [|x l IH]; [reflexivity|].
  cbn [Host.sort]. rewrite (sort_insert_stable _ key) by assumption.
  cbn [List.filter]. now rewrite IH.
Qed.

(** In a sorted list every adjacent pair is in order. *)
Lemma sorted_adjacent key l (i : nat) a b :
  StronglySorted (descending key) l ->
  l !! i = Some a -> l !! S i = Some b -> key b <= key a.
Proof.
  intros Hs. revert i. induction Hs as [|x l Hl IH Hx]; intros i Ha Hb.
  - discriminate.
  - destruct i as [|i]; simpl in *.
    + injection Ha as <-.
      destruct l as [|y l']; [discriminate|].
      injection Hb as <-. now inversion Hx.
    + eapply IH; eassumption.
Qed.

End SortFacts.

(** ** Numbers *)

Lemma Prim2SF_nan : Prim2SF nan = S754_nan.
Proof. reflexivity. Qed.

Lemma mul_nan_l (x : float) : (nan * x)%float = nan.
Proof.
  apply Prim2SF_inj. rewrite mul_spec, Prim2SF_nan. reflexivity.
Qed.

Lemma SFcompare_finite_refl s m e :
  SFcompare (S754_finite s m e) (S754_finite s m e) = Some Eq.
Proof.
  simpl. rewrite Z.compare_refl, Pos.compare_cont_refl. now destruct s.
Qed.

(** The positive numbers that are not finite: +Infinity alone. *)
Lemma nonfinite_positive (x : float) :
  is_finite x = false -> (0 <? x)%float = true -> x = infinity.
Proof.
  unfold is_finite, is_nan, is_infinity.
  rewrite ltb_spec, !FloatAxioms.eqb_spec, abs_spec.
  change (Prim2SF 0) with (S754_zero false).
  change (Prim2SF infinity) with (S754_infinity false).
  intros Hfin Hpos. apply Prim2SF_inj.
  change (Prim2SF infinity) with (S754_infinity false).
  destruct (Prim2SF x) as [s| [] | |s m e]; try discriminate; try reflexivity.
  unfold SFeqb in Hfin. rewrite SFcompare_finite_refl in Hfin.
  discriminate.
Qed.

Lemma not_positive_nan_neg_infinity :
  (0 <? nan)%float = false /\ (0 <? neg_infinity)%float = false /\
  (0 <? infinity)%float = true /\
  is_finite nan = false /\ is_finite neg_infinity = false /\
  is_finite infinity = false.
Proof. repeat split. Qed.

(** The rounding of the product of two finite numbers never yields NaN. *)
Lemma shr_1_nonneg (mrs : shr_record) : 0 <= shr_m mrs -> 0 <= shr_m (shr_1 mrs).
Proof. destruct mrs as [[|[p|p|]|p] r s]; simpl; lia. Qed.

Lemma iter_shr_1_nonneg (p : positive) (mrs : shr_record) :
  0 <= shr_m mrs -> 0 <= shr_m (@SpecFloat.iter_pos shr_record shr_1 p mrs).
Proof.
  revert mrs. induction p as [p IH|p IH|]; intros mrs Hm; simpl.
  - apply IH, IH, shr_1_nonneg, Hm.
  - apply IH, IH, Hm.
  - apply shr_1_nonneg, Hm.
Qed.

Lemma shr_fexp_nonneg (m e : Z) (l : location) :
  0 <= m -> 0 <= shr_m (fst (shr_fexp prec emax m e l)).
Proof.
  intros Hm. unfold shr_fexp, shr.
  assert (H0 : 0 <= shr_m (shr_record_of_loc m l))
    by (destruct l as [|[]]; exact Hm).
  destruct (fexp prec emax (Zdigits2 m + e) - e); simpl;
    [exact H0 | apply iter_shr_1_nonneg, H0 | exact H0].
Qed.

Lemma round_nearest_even_nonneg (m : Z) (l : location) :
  0 <= m -> 0 <= round_nearest_even m l.
Proof.
  intros Hm. destruct l as [|[]]; simpl; try lia.
  destruct (Z.even m); lia.
Qed.

Lemma binary_round_aux_not_nan (s : bool) (m e : Z) (l : location) :
  0 <= m -> binary_round_aux prec emax s m e l <> S754_nan.
Proof.
  intros Hm. unfold binary_round_aux.
  pose proof (shr_fexp_nonneg m e l Hm) as H1.
  destruct (shr_fexp prec emax m e l) as [mrs' e']. simpl in H1.
  pose proof (shr_fexp_nonneg _ e' loc_Exact
                (round_nearest_even_nonneg _ (loc_of_shr_record mrs') H1)) as H2.
  destruct (shr_fexp prec emax _ e' loc_Exact) as [mrs'' e'']. simpl in H2.
  destruct (shr_m mrs'') as [|p|p]; [discriminate| |lia].
  destruct (e'' <=? emax - prec); discriminate.
Qed.

Lemma is_nan_spec (x : float) : is_nan x = true <-> Prim2SF x = S754_nan.
Proof.
  unfold is_nan. rewrite FloatAxioms.eqb_spec. unfold SFeqb.
  destruct (Prim2SF x) as [s|[]| |s m e] eqn:E;
    try rewrite SFcompare_finite_refl; simpl; split; congruence.
Qed.

Lemma is_finite_spec (x : float) :
  is_finite x = true ->
  match Prim2SF x with
  | S754_zero _ | S754_finite _ _ _ => True
  | _ => False
  end.
Proof.
  unfold is_finite, is_infinity. intros Hfin.
  apply negb_true_iff, orb_false_iff in Hfin. destruct Hfin as [Hnan Hinf].
  rewrite FloatAxioms.eqb_spec, abs_spec in Hinf.
  change (Prim2SF infinity) with (S754_infinity false) in Hinf.
  destruct (Prim2SF x) as [s|s| |s m e] eqn:E; try exact I.
  - discriminate.
  - apply is_nan_spec in E. congruence.
Qed.

(** The product of two finite numbers is a number. *)
Lemma mul_finite_not_nan (x y : float) :
  is_finite x = true -> is_finite y = true -> is_nan (x * y) = false.
Proof.
  intros Hx Hy. apply is_finite_spec in Hx, Hy.
  destruct (is_nan (x * y)) eqn:Hnan; [|reflexivity].
  apply is_nan_spec in Hnan. rewrite mul_spec in Hnan.
  destruct (Prim2SF x) as [sx| | |sx mx ex], (Prim2SF y) as [sy| | |sy my ey];
    try contradiction; try discriminate.
  apply binary_round_aux_not_nan in Hnan; [contradiction|lia].
Qed.

(** Zero times a finite number is zero. *)
Lemma mul_zero_finite (y : float) :
  is_finite y = true -> (0 * y =? 0)%float = true.
Proof.
  intros Hy. apply is_finite_spec in Hy.
  rewrite FloatAxioms.eqb_spec, mul_spec.
  change (Prim2SF 0) with (S754_zero false).
  destruct (Prim2SF y) as [sy| | |sy my ey]; try contradiction; reflexivity.
Qed.

(** ** Rendering with [toFixed] *)

Lemma string_of_uint_isDigit (d : Decimal.uint) :
  forallb Host.isDigit (list_ascii_of_string (NilEmpty.string_of_uint d)) = true.
Proof. induction d; simpl; auto. Qed.

Lemma digits_isDigit (n : N) : forallb Host.isDigit (Host.digits n) = true.
Proof. apply string_of_uint_isDigit. Qed.

Lemma digits_nonempty (n : N) : Host.digits n <> [].
Proof.
  unfold Host.digits. destruct n as [|p]; [discriminate|].
  simpl. pose proof (DecimalPos.Unsigned.to_uint_nonnil p) as Hp.
  destruct (Pos.to_uint p); [contradiction|..]; discriminate.
Qed.

Lemma isDigit_not_minus (c : ascii) :
  Host.isDigit c = true -> Ascii.eqb c "-" = false.
Proof. destruct (Ascii.eqb_spec c "-"); [subst; discriminate|reflexivity]. Qed.

Lemma isDigit_not_point (c : ascii) :
  Host.isDigit c = true -> Ascii.eqb c "." = false.
Proof. destruct (Ascii.eqb_spec c "."); [subst; discriminate|reflexivity]. Qed.

Lemma stripMinus_sign (sign : bool) (cs : list ascii) :
  forallb Host.isDigit (firstn 1 cs) = true ->
  stripMinus ((if sign then ["-"%char] else []) ++ cs) = cs.
Proof.
  destruct sign; [reflexivity|].
  destruct cs as [|c cs]; [reflexivity|]. simpl.
  rewrite andb_true_r. intros Hc. now rewrite isDigit_not_minus.
Qed.

Lemma firstn_length_app {A : Type} (l1 l2 : list A) :
  firstn (length l1) (l1 ++ l2) = l1.
Proof. induction l1 as [|x l1 IH]; simpl; [now destruct l2|now rewrite IH]. Qed.

Lemma skipn_length_app {A : Type} (l1 l2 : list A) :
  skipn (length l1) (l1 ++ l2) = l2.
Proof. induction l1 as [|x l1 IH]; simpl; [reflexivity|exact IH]. Qed.

Lemma forallb_firstn_skipn {A : Type} (p : A -> bool) (k : nat) (l : list A) :
  forallb p l = true ->
  forallb p (firstn k l) = true /\ forallb p (skipn k l) = true.
Proof.
  intros Hl. rewrite <- (firstn_skipn k l), forallb_app in Hl.
  now apply andb_true_iff.
Qed.

(** Fixed-point digits: digits, a point, and as many digits as asked. *)
Lemma fixedDigits_shape (f : nat) (n : Z) :
  exists a b : list ascii,
    Host.fixedDigits (S f) n = a ++ "."%char :: b /\
    a <> [] /\ forallb Host.isDigit a = true /\
    forallb Host.isDigit b = true /\ length b = S f.
Proof.
  unfold Host.fixedDigits.
  set (m := repeat "0"%char (S (S f) - length (Host.digits (Z.to_N n)))
            ++ Host.digits (Z.to_N n)).
  assert (Hlen : (S (S f) <= length m)%nat).
  { unfold m. rewrite length_app, repeat_length. lia. }
  assert (Hdig : forallb Host.isDigit m = true).
  { unfold m. rewrite forallb_app, digits_isDigit, andb_true_r.
    apply forallb_forall. intros c Hc. apply repeat_spec in Hc. now subst. }
  destruct (forallb_firstn_skipn Host.isDigit (length m - S f) m Hdig) as [Ha Hb].
  exists (firstn (length m - S f) m), (skipn (length m - S f) m).
  repeat split; try assumption.
  - intros Hnil. apply (f_equal (@length ascii)) in Hnil.
    rewrite length_firstn in Hnil. simpl in Hnil. lia.
  - rewrite length_skipn. lia.
Qed.

Lemma hasDecimals_fixed (f : nat) (sign : bool) (a b : list ascii) :
  a <> [] -> forallb Host.isDigit a = true ->
  forallb Host.isDigit b = true -> length b = f ->
  hasDecimals f
    (string_of_list_ascii ((if sign then ["-"%char] else []) ++ a ++ "."%char :: b))
  = true.
Proof.
  intros Hne Ha Hb Hlen. unfold hasDecimals.
  rewrite list_ascii_of_string_of_list_ascii, stripMinus_sign.
  - replace (length (a ++ "."%char :: b) - S f)%nat with (length a)
      by (rewrite length_app; simpl; lia).
    rewrite firstn_length_app, skipn_length_app, Ha, Hb, Hlen, Nat.eqb_refl.
    destruct a; [contradiction|reflexivity].
  - destruct a as [|c a]; [contradiction|]. simpl in *.
    apply andb_true_iff in Ha. now rewrite (proj1 Ha).
Qed.

Lemma hasDecimals_integer (f : nat) (sign : bool) (d : list ascii) :
  forallb Host.isDigit d = true ->
  hasDecimals f (string_of_list_ascii ((if sign then ["-"%char] else []) ++ d))
  = false.
Proof.
  intros Hd. unfold hasDecimals.
  rewrite list_ascii_of_string_of_list_ascii, stripMinus_sign.
  - destruct (forallb_firstn_skipn Host.isDigit (length d - S f) d Hd) as [_ Hb].
    destruct (skipn (length d - S f) d) as [|c ds]; [apply andb_false_r|].
    simpl in Hb. apply andb_true_iff in Hb.
    rewrite (isDigit_not_point c) by apply Hb. apply andb_false_r.
  - apply (forallb_firstn_skipn Host.isDigit 1 d Hd).
Qed.

(** With two fraction digits, every number of the fixed-point range is
    rendered with exactly two decimal digits; with none, with no decimal
    digit. *)
Lemma toFixed_2_decimals (x : float) :
  fixedRange x = true -> hasDecimals 2 (Host.toFixed 2 x) = true.
Proof.
  unfold fixedRange, Host.toFixed.
  destruct (Prim2SF x) as [s| | |s m e]; try discriminate.
  - reflexivity.
  - intros Hlt. apply negb_true_iff in Hlt. rewrite Hlt.
    destruct (fixedDigits_shape 1 (Host.nearestScaled 2 m e))
      as (a & b & -> & Hne & Ha & Hb & Hlen).
    now apply hasDecimals_fixed.
Qed.

Lemma toFixed_0_decimals (x : float) :
  fixedRange x = true -> hasDecimals 2 (Host.toFixed 0 x) = false.
Proof.
  unfold fixedRange, Host.toFixed.
  destruct (Prim2SF x) as [s| | |s m e]; try discriminate.
  - reflexivity.
  - intros Hlt. apply negb_true_iff in Hlt. rewrite Hlt.
    apply hasDecimals_integer, digits_isDigit.
Qed.

(** ** The wallet page: priorities, filter and sort *)

Lemma getPriority_cases (chain : string) :
  (chain = "Osmosis"%string /\ getPriority chain = 100) \/
  (chain = "Ethereum"%string /\ getPriority chain = 50) \/
  (chain = "Arbitrum"%string /\ getPriority chain = 30) \/
  (chain = "Zilliqa"%string /\ getPriority chain = 20) \/
  (chain = "Neo"%string /\ getPriority chain = 20) \/
  (~ In chain configuredChains /\ BLOCKCHAIN_PRIORITIES !! chain = None /\
   getPriority chain = -99).
Proof.
  unfold getPriority, BLOCKCHAIN_PRIORITIES, configuredChains.
  destruct (decide (chain = "Osmosis"%string)) as [->|H1]; [left; split; reflexivity|].
  destruct (decide (chain = "Ethereum"%string)) as [->|H2];
    [right; left; split; reflexivity|].
  destruct (decide (chain = "Arbitrum"%string)) as [->|H3];
    [do 2 right; left; split; reflexivity|].
  destruct (decide (chain = "Zilliqa"%string)) as [->|H4];
    [do 3 right; left; split; reflexivity|].
  destruct (decide (chain = "Neo"%string)) as [->|H5];
    [do 4 right; left; split; reflexivity|].
  do 5 right.
  assert (Hnone : (<["Osmosis"%string:=100]> (<["Ethereum"%string:=50]>
            (<["Arbitrum"%string:=30]> (<["Zilliqa"%string:=20]>
            {["Neo"%string:=20]}))) : gmap string Z) !! chain = None).
  { repeat (rewrite lookup_insert_ne by congruence).
    apply lookup_singleton_ne. congruence. }
  split; [simpl; intuition congruence|].
  split; [exact Hnone|]. rewrite Hnone. reflexivity.
Qed.

Lemma getPriority_lower_bound (chain : string) :
  DEFAULT_PRIORITY <= getPriority chain.
Proof.
  unfold DEFAULT_PRIORITY.
  destruct (getPriority_cases chain)
    as [[_ ->]|[[_ ->]|[[_ ->]|[[_ ->]|[[_ ->]|(_ & _ & ->)]]]]]; lia.
Qed.

(** The three filter callbacks decide [retained]. *)
Lemma Exam_keep_true b : Exam.keep b = true <-> retained b.
Proof.
  unfold Exam.keep, retained, priorityOf.
  rewrite andb_true_iff, Z.gtb_ltb, Z.ltb_lt. reflexivity.
Qed.

Lemma Exam_keep_spec b : Exam.keep b = bool_decide (retained b).
Proof.
  destruct (Exam.keep b) eqn:Hkeep; symmetry.
  - apply bool_decide_eq_true, Exam_keep_true, Hkeep.
  - apply bool_decide_eq_false. rewrite <- Exam_keep_true. congruence.
Qed.

Lemma Refactored_keep_spec b : Refactored.keep b = Exam.keep b.
Proof. reflexivity. Qed.

Lemma Optimal_keep_spec b : Optimal.keep b = Exam.keep b.
Proof. reflexivity. Qed.

(** Case analysis on every [>?] test of the goal. *)
Ltac gtb_cases :=
  repeat match goal with
  | |- context [?a >? ?b] => destruct (Z.gtb_spec a b)
  end.

(** The three comparators order by priority, larger first. *)
Lemma Exam_compare_byKey : byKeyDesc Exam.compare priorityOf.
Proof. intros a b. unfold Exam.compare, priorityOf. gtb_cases; lia. Qed.

Lemma Refactored_compare_byKey : byKeyDesc Refactored.compare priorityOf.
Proof. intros a b. unfold Refactored.compare, priorityOf. lia. Qed.

Lemma Optimal_compare_byKey : byKeyDesc Optimal.sortByPriorityDesc priorityOf.
Proof. intros a b. unfold Optimal.sortByPriorityDesc, priorityOf. lia. Qed.

Create HintDb wallet discriminated.
#[local] Hint Resolve Exam_compare_byKey Refactored_compare_byKey
  Optimal_compare_byKey : wallet.

Lemma byKeyDesc_sign {A : Type} (c1 c2 : A -> A -> Z) (key : A -> Z) :
  byKeyDesc c1 key -> byKeyDesc c2 key ->
  forall a b, (c1 a b <=? 0) = (c2 a b <=? 0).
Proof.
  intros H1 H2 a b.
  destruct (Z.leb_spec (c1 a b) 0) as [Hle|Hgt], (Z.leb_spec (c2 a b) 0) as [Hle'|Hgt'];
    try reflexivity.
  - apply H1, H2 in Hle. lia.
  - apply H2, H1 in Hle'. lia.
Qed.

(** Formatting keeps the balances and their order. *)
Lemma Refactored_wallets balances prices :
  map wallet (Refactored.formattedBalances balances prices)
  = Host.sort Refactored.compare (List.filter Refactored.keep balances).
Proof.
  unfold Refactored.formattedBalances. rewrite map_map. apply map_id.
Qed.

Lemma Optimal_wallets balances prices :
  map wallet (Optimal.formattedBalances balances prices)
  = Host.sort Optimal.sortByPriorityDesc (List.filter Optimal.keep balances).
Proof.
  unfold Optimal.formattedBalances. rewrite map_map. apply map_id.
Qed.

Lemma Exam_rows_source balances prices :
  map (fun r => (WalletRow.key r, WalletRow.amount r)) (Exam.rows balances prices)
  = map (fun b => (blockchain b +:+ "-" +:+ currency b, amount b))
      (Exam.sortedBalances balances).
Proof. unfold Exam.rows. rewrite map_map. reflexivity. Qed.

Lemma keep_filter_ext balances :
  List.filter Exam.keep balances
  = List.filter (fun b => bool_decide (retained b)) balances.
Proof. apply filter_ext. intros b. apply Exam_keep_spec. Qed.

(** C2: the balances that the filter and sort stages retain, and their
    order, do not depend on the price table: two runs on the same balance
    list with any two price tables agree on them, in the refactored and the
    optimal component and in the rows of the exam component. *)
Theorem filter_sort_ignore_prices
    (balances : list WalletBalance) (prices1 prices2 : gmap string float) :
  map wallet (Refactored.formattedBalances balances prices1)
  = map wallet (Refactored.formattedBalances balances prices2) /\
  map wallet (Optimal.formattedBalances balances prices1)
  = map wallet (Optimal.formattedBalances balances prices2) /\
  map (fun r => (WalletRow.key r, WalletRow.amount r)) (Exam.rows balances prices1)
  = map (fun r => (WalletRow.key r, WalletRow.amount r)) (Exam.rows balances prices2).
Proof.
  rewrite !Refactored_wallets, !Optimal_wallets, !Exam_rows_source.
  repeat split.
Qed.

(** C3: the filter stage retains exactly the balances with a chain priority
    above the sentinel and an amount above 0, each as often as it occurs in
    the input, and so does the output of every variant of the pipeline; every
    other balance is dropped and nothing is raised. *)
Theorem filter_retains_exactly
    (balances : list WalletBalance) (prices : gmap string float) :
  let kept := List.filter (fun b => bool_decide (retained b)) balances in
  (forall b, In b kept <-> In b balances /\ retained b) /\
  List.filter Exam.keep balances = kept /\
  List.filter Refactored.keep balances = kept /\
  List.filter Optimal.keep balances = kept /\
  Permutation (Exam.sortedBalances balances) kept /\
  Permutation (map wallet (Refactored.formattedBalances balances prices)) kept /\
  Permutation (map wallet (Optimal.formattedBalances balances prices)) kept /\
  Forall retained (Exam.sortedBalances balances) /\
  Forall (fun r => retained (wallet r)) (Refactored.formattedBalances balances prices) /\
  Forall (fun r => retained (wallet r)) (Optimal.formattedBalances balances prices).
Proof.
  intros kept.
  assert (Hin : forall b, In b kept <-> In b balances /\ retained b).
  { intros b. unfold kept. rewrite filter_In, bool_decide_eq_true. reflexivity. }
  assert (Hall : Forall retained kept).
  { apply List.Forall_forall. intros b Hb. now apply Hin in Hb. }
  assert (HE : Permutation (Exam.sortedBalances balances) kept).
  { unfold Exam.sortedBalances. rewrite sort_perm. now rewrite keep_filter_ext. }
  assert (HR : Permutation
            (map wallet (Refactored.formattedBalances balances prices)) kept).
  { rewrite Refactored_wallets, sort_perm. unfold kept.
    now rewrite <- keep_filter_ext. }
  assert (HO : Permutation
            (map wallet (Optimal.formattedBalances balances prices)) kept).
  { rewrite Optimal_wallets, sort_perm. unfold kept.
    now rewrite <- keep_filter_ext. }
  split; [exact Hin|].
  repeat split; try apply keep_filter_ext; try assumption.
  - eapply Permutation_Forall; [symmetry; exact HE|exact Hall].
  - apply (proj1 (List.Forall_map wallet retained _)).
    eapply Permutation_Forall; [symmetry; exact HR|exact Hall].
  - apply (proj1 (List.Forall_map wallet retained _)).
    eapply Permutation_Forall; [symmetry; exact HO|exact Hall].
Qed.

Lemma StronglySorted_map {A B : Type} (f : A -> B) (key : B -> Z) (l : list A) :
  StronglySorted (descending (fun a => key (f a))) l ->
  StronglySorted (descending key) (map f l).
Proof.
  induction 1 as [|x l Hl IH Hx]; simpl; constructor; [exact IH|].
  apply (proj2 (List.Forall_map f (descending key (f x)) l)). exact Hx.
Qed.

Lemma Exam_sorted balances :
  StronglySorted (descending priorityOf) (Exam.sortedBalances balances).
Proof. apply sort_sorted; auto with wallet. Qed.

Lemma Refactored_sorted balances prices :
  StronglySorted (descending (fun r => priorityOf (wallet r)))
    (Refactored.formattedBalances balances prices).
Proof.
  apply StronglySorted_map with (key := fun r => priorityOf (wallet r)).
  apply (sort_sorted Refactored.compare priorityOf), Refactored_compare_byKey.
Qed.

Lemma Optimal_sorted balances prices :
  StronglySorted (descending (fun r => priorityOf (wallet r)))
    (Optimal.formattedBalances balances prices).
Proof.
  apply StronglySorted_map with (key := fun r => priorityOf (wallet r)).
  apply (sort_sorted Optimal.sortByPriorityDesc priorityOf), Optimal_compare_byKey.
Qed.

(** C4: in the output of every variant of the pipeline, the first of two
    adjacent rows has a chain priority at least that of the second: the
    retained balances are in descending order of priority. *)
Theorem output_descending
    (balances : list WalletBalance) (prices : gmap string float) :
  (forall a b, adjacent (Exam.sortedBalances balances) a b ->
     priorityOf a >= priorityOf b) /\
  (forall a b, adjacent (Refactored.formattedBalances balances prices) a b ->
     priorityOf (wallet a) >= priorityOf (wallet b)) /\
  (forall a b, adjacent (Optimal.formattedBalances balances prices) a b ->
     priorityOf (wallet a) >= priorityOf (wallet b)).
Proof.
  repeat split; intros a b (i & Ha & Hb); apply Z.le_ge.
  - exact (sorted_adjacent priorityOf _ i a b (Exam_sorted balances) Ha Hb).
  - exact (sorted_adjacent (fun r => priorityOf (wallet r)) _ i a b
             (Refactored_sorted balances prices) Ha Hb).
  - exact (sorted_adjacent (fun r => priorityOf (wallet r)) _ i a b
             (Optimal_sorted balances prices) Ha Hb).
Qed.

Lemma output_descending_witness :
  priorityOf {| currency := "ETH"; amount := 10; blockchain := "Ethereum" |}
  >= priorityOf {| currency := "ARB"; amount := 20; blockchain := "Arbitrum" |}.
Proof.
  apply (proj1 (output_descending scenario ∅)).
  exists 0%nat. split; reflexivity.
Defined.

(** C5: each comparator returns a number for every pair of balances, and
    exactly 0 when the two chain priorities are equal; the sort is stable:
    in the output of every variant the balances of any one priority stand in
    the order they had in the filtered list. *)
Theorem comparator_zero_and_sort_stable :
  (forall a b, priorityOf a = priorityOf b ->
     Exam.compare a b = 0 /\ Refactored.compare a b = 0 /\
     Optimal.sortByPriorityDesc a b = 0) /\
  (forall balances prices p,
     ofPriority p (Exam.sortedBalances balances)
     = ofPriority p (List.filter Exam.keep balances) /\
     ofPriority p (map wallet (Refactored.formattedBalances balances prices))
     = ofPriority p (List.filter Refactored.keep balances) /\
     ofPriority p (map wallet (Optimal.formattedBalances balances prices))
     = ofPriority p (List.filter Optimal.keep balances)).
Proof.
  split.
  - intros a b Heq.
    unfold Exam.compare, Refactored.compare, Optimal.sortByPriorityDesc.
    unfold priorityOf in Heq. rewrite Heq.
    gtb_cases; repeat split; lia.
  - intros balances prices p.
    rewrite Refactored_wallets, Optimal_wallets.
    unfold ofPriority, Exam.sortedBalances.
    repeat split; apply sort_stable; auto with wallet.
Qed.

Lemma comparator_zero_witness :
  let zil := {| currency := "ZIL"; amount := 1000; blockchain := "Zilliqa" |} in
  let neo := {| currency := "NEO"; amount := 25; blockchain := "Neo" |} in
  Exam.compare zil neo = 0 /\ Refactored.compare zil neo = 0 /\
  Optimal.sortByPriorityDesc zil neo = 0.
Proof.
  intros zil neo.
  apply (proj1 comparator_zero_and_sort_stable zil neo).
  reflexivity.
Defined.



(** C9: the three-way comparator of the exam component and the subtraction
    comparators of the refactored and the optimal component have the same
    sign on every pair of balances, so the sort stages order every list the
    same way and the three variants retain the same balances in the same
    order. *)
Theorem comparators_sign_equivalent :
  (forall a b,
     Z.sgn (Exam.compare a b) = Z.sgn (Refactored.compare a b) /\
     Z.sgn (Exam.compare a b) = Z.sgn (Optimal.sortByPriorityDesc a b)) /\
  (forall l,
     Host.sort Exam.compare l = Host.sort Refactored.compare l /\
     Host.sort Exam.compare l = Host.sort Optimal.sortByPriorityDesc l) /\
  (forall balances prices,
     Exam.sortedBalances balances
     = map wallet (Refactored.formattedBalances balances prices) /\
     Exam.sortedBalances balances
     = map wallet (Optimal.formattedBalances balances prices)).
Proof.
  assert (Hsort : forall l,
     Host.sort Exam.compare l = Host.sort Refactored.compare l /\
     Host.sort Exam.compare l = Host.sort Optimal.sortByPriorityDesc l).
  { intros l. split; apply sort_ext; eapply byKeyDesc_sign; eauto with wallet. }
  repeat split; try apply Hsort.
  - unfold Exam.compare, Refactored.compare. gtb_cases; lia.
  - unfold Exam.compare, Optimal.sortByPriorityDesc. gtb_cases; lia.
  - rewrite Refactored_wallets. apply Hsort.
  - rewrite Optimal_wallets. apply Hsort.
Qed.

(** ** The wallet page: prices, formatting and malformed input *)



(** C7 (the exam component breaks it): its rows format the amount with
    [toFixed()], that is with no fraction digit; on the demonstration page's
    own mock data the 2.5 ETH are rendered as "3". For every amount of the
    fixed-point range the exam component's string has no decimal digits,
    while the refactored and the optimal component, which call [toFixed(2)],
    render exactly two. *)
Theorem exam_formats_without_decimals :
  map WalletRow.formattedAmount (Exam.rows App.mockBalances App.mockPrices)
  = ["100"; "3"; "50"; "1000"; "25"]%string /\
  map formatted (Optimal.formattedBalances App.mockBalances App.mockPrices)
  = ["100.00"; "2.50"; "50.00"; "1000.00"; "25.00"]%string /\
  hasDecimals 2 "3" = false /\
  (forall prices b, fixedRange (amount b) = true ->
     hasDecimals 2 (WalletRow.formattedAmount (Exam.row prices b)) = false /\
     hasDecimals 2 (formatted (Refactored.format prices b)) = true /\
     hasDecimals 2 (formatted (Optimal.format prices b)) = true).
Proof.
  split; [vm_compute; reflexivity|].
  split; [vm_compute; reflexivity|].
  split; [reflexivity|].
  intros prices b Hrange. simpl.
  rewrite toFixed_0_decimals, toFixed_2_decimals by assumption.
  repeat split.
Qed.

Lemma exam_formats_without_decimals_witness :
  let b := {| currency := "ETH"; amount := 2.5; blockchain := "Ethereum" |} in
  hasDecimals 2 (WalletRow.formattedAmount (Exam.row App.mockPrices b)) = false /\
  hasDecimals 2 (formatted (Refactored.format App.mockPrices b)) = true /\
  hasDecimals 2 (formatted (Optimal.format App.mockPrices b)) = true.
Proof.
  intros b.
  apply (proj2 (proj2 (proj2 exam_formats_without_decimals)) App.mockPrices b).
  reflexivity.
Defined.

(** C8, as the code has it: no variant validates its input. Given a balance
    whose amount is not finite, the component raises nothing and returns
    its rows; the balance is dropped by the filter, unless its amount is
    +Infinity and its chain is recognized, in which case it is retained. *)
Theorem nonfinite_amount_not_rejected
    (balances : list WalletBalance) (prices : gmap string float)
    (b : WalletBalance) :
  In b balances ->
  is_finite (amount b) = false ->
  (exists rows, Exam.WalletPage balances prices = Host.Normal rows) /\
  (exists rows, Refactored.WalletPage balances prices = Host.Normal rows) /\
  (exists rows, Optimal.WalletPage balances prices = Host.Normal rows) /\
  (In b (Exam.sortedBalances balances)
   <-> amount b = infinity /\ DEFAULT_PRIORITY < priorityOf b) /\
  (In b (map wallet (Refactored.formattedBalances balances prices))
   <-> amount b = infinity /\ DEFAULT_PRIORITY < priorityOf b) /\
  (In b (map wallet (Optimal.formattedBalances balances prices))
   <-> amount b = infinity /\ DEFAULT_PRIORITY < priorityOf b).
Proof.
  intros Hin Hfin.
  assert (Hkept : In b balances /\ retained b
                  <-> amount b = infinity /\ DEFAULT_PRIORITY < priorityOf b).
  { unfold retained. split.
    - intros (_ & Hprio & Hpos). split; [|exact Hprio].
      now apply nonfinite_positive.
    - intros [Hinf Hprio]. repeat split; try assumption.
      rewrite Hinf. reflexivity. }
  do 3 (split; [eexists; reflexivity|]).
  rewrite Refactored_wallets, Optimal_wallets.
  unfold Exam.sortedBalances.
  rewrite !sort_In, !filter_In.
  change (Refactored.keep b) with (Exam.keep b).
  change (Optimal.keep b) with (Exam.keep b).
  rewrite Exam_keep_true.
  split; [|split]; exact Hkept.
Qed.

Lemma nonfinite_amount_not_rejected_witness :
  let b := {| currency := "ETH"; amount := infinity; blockchain := "Ethereum" |} in
  In b (map wallet (Optimal.formattedBalances [b] ∅))
  <-> amount b = infinity /\ DEFAULT_PRIORITY < priorityOf b.
Proof.
  intros b.
  apply (nonfinite_amount_not_rejected [b] ∅ b); [left|]; reflexivity.
Defined.

(** C8 as stated fails: the balance list with an amount of +Infinity is
    malformed, and every variant returns a row for it, with the USD value
    NaN, instead of a validation error. *)
Lemma validation_error_counterexample :
  let b := {| currency := "ETH"; amount := infinity; blockchain := "Ethereum" |} in
  is_finite (amount b) = false /\
  Optimal.WalletPage [b] ∅
  = Host.Normal [ {| wallet := b; formatted := "Infinity"; usdValue := nan |} ] /\
  Refactored.WalletPage [b] ∅
  = Host.Normal [ {| wallet := b; formatted := "Infinity"; usdValue := nan |} ] /\
  Exam.WalletPage [b] ∅
  = Host.Normal [ {| WalletRow.className := "wallet-row";
                     WalletRow.key := "Ethereum-ETH";
                     WalletRow.amount := infinity;
                     WalletRow.usdValue := nan;
                     WalletRow.formattedAmount := "Infinity" |} ] /\
  ~ (forall balances prices,
       Exists (fun b => is_finite (amount b) = false) balances ->
       exists error, Optimal.WalletPage balances prices = Host.Throw error).
Proof.
  intros b. repeat split.
  intros Hclaim.
  destruct (Hclaim [b] ∅) as [error Herror]; [|discriminate].
  constructor. reflexivity.
Qed.

(** ** The wallet page on well-formed input *)

Lemma Optimal_rows_formatted balances prices r :
  In r (Optimal.formattedBalances balances prices) ->
  r = Optimal.format prices (wallet r).
Proof.
  unfold Optimal.formattedBalances. intros Hr.
  apply in_map_iff in Hr. destruct Hr as (b & <- & _). reflexivity.
Qed.

Lemma Refactored_rows_formatted balances prices r :
  In r (Refactored.formattedBalances balances prices) ->
  r = Refactored.format prices (wallet r).
Proof.
  unfold Refactored.formattedBalances. intros Hr.
  apply in_map_iff in Hr. destruct Hr as (b & <- & _). reflexivity.
Qed.



(** X2: every row of the refactored and of the optimal component whose
    amount is finite and below 10^21 in magnitude carries the amount
    rendered with exactly two decimal digits. *)
Theorem formatted_two_decimals
    (balances : list WalletBalance) (prices : gmap string float)
    (r : FormattedWalletBalance) :
  In r (Refactored.formattedBalances balances prices) \/
  In r (Optimal.formattedBalances balances prices) ->
  fixedRange (amount (wallet r)) = true ->
  hasDecimals 2 (formatted r) = true.
Proof.
  intros [Hr|Hr] Hrange.
  - rewrite (Refactored_rows_formatted _ _ _ Hr). simpl.
    now apply toFixed_2_decimals.
  - rewrite (Optimal_rows_formatted _ _ _ Hr). simpl.
    now apply toFixed_2_decimals.
Qed.

Lemma formatted_two_decimals_witness :
  hasDecimals 2 "2.50" = true.
Proof.
  apply (formatted_two_decimals
           [ {| currency := "ETH"; amount := 2.5; blockchain := "Ethereum" |} ] ∅
           {| wallet := {| currency := "ETH"; amount := 2.5;
                           blockchain := "Ethereum" |};
              formatted := "2.50"; usdValue := 0 |}).
  - right. left. reflexivity.
  - reflexivity.
Defined.

(** The scenarios of the balance list. Of ETH 10, OSMO 0, ZIL -5, ARB 20
    and NEO 15 the output is ETH, ARB, NEO in that order; two balances on
    Zilliqa and Neo (both of priority 20) keep their input order either way
    round; a balance on the unconfigured chain Bitcoin is excluded whatever
    the sign of its amount. *)
Theorem scenario_output :
  map currency (Exam.sortedBalances scenario) = ["ETH"; "ARB"; "NEO"]%string /\
  map (fun r => currency (wallet r)) (Refactored.formattedBalances scenario ∅)
  = ["ETH"; "ARB"; "NEO"]%string /\
  map (fun r => currency (wallet r)) (Optimal.formattedBalances scenario ∅)
  = ["ETH"; "ARB"; "NEO"]%string /\
  (let zil := {| currency := "ZIL"; amount := 1000; blockchain := "Zilliqa" |} in
   let neo := {| currency := "NEO"; amount := 25; blockchain := "Neo" |} in
   map wallet (Optimal.formattedBalances [zil; neo] ∅) = [zil; neo] /\
   map wallet (Optimal.formattedBalances [neo; zil] ∅) = [neo; zil] /\
   Exam.sortedBalances [zil; neo] = [zil; neo] /\
   Exam.sortedBalances [neo; zil] = [neo; zil]) /\
  (let btc (a : float) :=
     {| currency := "BTC"; amount := a; blockchain := "Bitcoin" |} in
   Optimal.formattedBalances [btc 0.1%float; btc (-0.1)%float; btc 0%float] ∅ = [] /\
   Refactored.formattedBalances [btc 0.1%float; btc (-0.1)%float; btc 0%float] ∅ = [] /\
   Exam.sortedBalances [btc 0.1%float; btc (-0.1)%float; btc 0%float] = []).
Proof. vm_compute. repeat split. Qed.

(** ** Sum to n *)

Lemma sum_to_n_c_step (n : Z) :
  sum_to_n_c n = if Z_le_dec n 0 then 0 else n + sum_to_n_c (n - 1).
Proof.
  rewrite sum_to_n_c_equation_1.
  destruct (Z_le_dec n 0); reflexivity.
Qed.

Lemma sum_to_n_c_nonpos (n : Z) : n <= 0 -> sum_to_n_c n = 0.
Proof.
  intros Hn. rewrite sum_to_n_c_step.
  destruct (Z_le_dec n 0); [reflexivity|contradiction].
Qed.

Lemma sum_to_n_c_double (n : Z) : 0 <= n -> 2 * sum_to_n_c n = n * (n + 1).
Proof.
  revert n. apply natlike_ind.
  - rewrite sum_to_n_c_step. reflexivity.
  - intros n Hn IH. rewrite sum_to_n_c_step.
    destruct (Z_le_dec (Z.succ n) 0); [lia|].
    replace (Z.succ n - 1) with n by lia. nia.
Qed.

Lemma sum_to_n_b_loop_step (n i sum : Z) :
  sum_to_n_b_loop n i sum
  = if Z_le_dec i n then sum_to_n_b_loop n (i + 1) (sum + i) else sum.
Proof.
  rewrite sum_to_n_b_loop_equation_1.
  destruct (Z_le_dec i n); reflexivity.
Qed.

(** The loop adds the integers from [i] to [n] to [sum]. *)
Lemma sum_to_n_b_loop_double (n i sum : Z) :
  1 <= i <= n + 1 ->
  2 * sum_to_n_b_loop n i sum = 2 * sum + n * (n + 1) - (i - 1) * i.
Proof.
  remember (Z.to_nat (n + 1 - i)) as k eqn:Hk.
  revert i sum Hk. induction k as [|k IH]; intros i sum Hk Hi;
    rewrite sum_to_n_b_loop_step; destruct (Z_le_dec i n); try lia.
  - assert (i = n + 1) by lia. subst. nia.
  - rewrite IH by lia. nia.
Qed.

Lemma half_exact (v k : Z) : 2 * v = k -> v = k / 2.
Proof. intros <-. symmetry. rewrite Z.mul_comm. apply Z.div_mul. lia. Qed.



Example sum_to_n_examples :
  sum_to_n_a 5 = 15 /\ sum_to_n_b 5 = 15 /\ sum_to_n_c 5 = 15 /\
  sum_to_n_b (-3) = 0 /\ sum_to_n_c (-3) = 0.
Proof. vm_compute. repeat split. Qed.

(** ** Sum to n with input validation *)

Import SumToN.

Example sumToN_examples :
  sumToNIterative 100 = Host.Normal 5050 /\
  sumToNRecursive 100 = Host.Normal 5050 /\
  sumToNFunctional 100 = Host.Normal 5050 /\
  sumToNGenerator 100 = Host.Normal 5050 /\
  sumToNBitManipulation 100 = Host.Normal 5050 /\
  sumToNBitManipulation 46341 = Host.Normal (-1073716337) /\
  sumToNMathematical 2.5 = Host.Throw invalidInput /\
  sumToNMathematical 0 = Host.Throw invalidInput /\
  sumToNMathematical (-3) = Host.Throw invalidInput /\
  sumToNMathematical nan = Host.Throw invalidInput /\
  sumToNMathematical infinity = Host.Throw invalidInput.
Proof. vm_compute. repeat split. Qed.

Lemma integerValue_finite_pos (m : positive) (e : Z) (k : Z) :
  (if 0 <=? e then Some (Z.pos m * 2 ^ e)
   else if Z.pos m mod 2 ^ (- e) =? 0 then Some (Z.pos m / 2 ^ (- e))
   else None) = Some k -> 0 < k.
Proof.
  destruct (Z.leb_spec 0 e) as [He|He].
  - intros [= <-]. apply Z.mul_pos_pos; [lia|]. now apply Z.pow_pos_nonneg.
  - assert (Hp : 0 < 2 ^ (- e)) by (apply Z.pow_pos_nonneg; lia).
    destruct (Z.eqb_spec (Z.pos m mod 2 ^ (- e)) 0) as [Hmod|]; [|discriminate].
    intros [= <-].
    pose proof (Z.div_mod (Z.pos m) (2 ^ (- e)) ltac:(lia)) as Hdm.
    rewrite Hmod in Hdm. nia.
Qed.

(** The validation passes exactly on the positive integers. *)
Lemma validateInput_Normal (n : float) :
  validateInput n = Host.Normal tt
  <-> exists k, integerValue n = Some k /\ 0 < k.
Proof.
  unfold validateInput, Number_isInteger, integerValue.
  rewrite leb_spec. change (Prim2SF 0) with (S754_zero false).
  destruct (Prim2SF n) as [s|s| |s m e]; simpl.
  - split; [discriminate|]. intros (k & [= <-] & Hk). lia.
  - split; [discriminate|]. intros (k & [=] & _).
  - split; [discriminate|]. intros (k & [=] & _).
  - destruct (if 0 <=? e then Some (Z.pos m * 2 ^ e)
              else if Z.pos m mod 2 ^ (- e) =? 0 then Some (Z.pos m / 2 ^ (- e))
              else None) as [k0|] eqn:Hmag; simpl.
    + apply integerValue_finite_pos in Hmag.
      destruct s; simpl.
      * split; [discriminate|]. intros (k & [= <-] & Hk). lia.
      * split; [|reflexivity]. intros _. exists k0. now split.
    + split; [discriminate|]. intros (k & [=] & _).
Qed.

Lemma validateInput_cases (n : float) :
  validateInput n = Host.Normal tt \/ validateInput n = Host.Throw invalidInput.
Proof. unfold validateInput. destruct (_ || _); auto. Qed.

Lemma numberToZ_integerValue (n : float) (k : Z) :
  integerValue n = Some k -> numberToZ n = k.
Proof. unfold numberToZ. now intros ->. Qed.

Ltac validated n k Hk Hpos :=
  let Hv := fresh "Hv" in
  assert (Hv : validateInput n = Host.Normal tt)
    by (apply validateInput_Normal; exists k; split; assumption);
  repeat match goal with
  | |- context [sumToNIterative n] => unfold sumToNIterative
  | |- context [sumToNMathematical n] => unfold sumToNMathematical
  | |- context [sumToNRecursive n] => unfold sumToNRecursive
  | |- context [sumToNFunctional n] => unfold sumToNFunctional
  | |- context [sumToNWhile n] => unfold sumToNWhile
  | |- context [sumToNGenerator n] => unfold sumToNGenerator
  | |- context [sumToNBitManipulation n] => unfold sumToNBitManipulation
  end;
  rewrite ?Hv, ?(numberToZ_integerValue n k Hk); cbn [mbind Completion_bind].

Lemma sumToNRecursive_from_step (n : Z) :
  sumToNRecursive_from n
  = if Z_le_dec n 0 then Host.Throw invalidInput
    else if Z.eq_dec n 1 then Host.Normal 1
    else match sumToNRecursive_from (n - 1) with
         | Host.Normal r => Host.Normal (n + r)
         | Host.Throw e => Host.Throw e
         end.
Proof.
  rewrite sumToNRecursive_from_equation_1.
  destruct (Z_le_dec n 0); [reflexivity|].
  simpl. destruct (Z.eq_dec n 1); reflexivity.
Qed.

Lemma sumToNRecursive_from_succ (m : Z) :
  0 <= m ->
  exists r, sumToNRecursive_from (m + 1) = Host.Normal r /\
            2 * r = (m + 1) * (m + 2).
Proof.
  revert m. apply natlike_ind.
  - exists 1. rewrite sumToNRecursive_from_step. simpl. split; reflexivity.
  - intros m Hm (r & Hr & Hsum).
    exists (Z.succ m + 1 + r). rewrite sumToNRecursive_from_step.
    destruct (Z_le_dec (Z.succ m + 1) 0); [lia|].
    destruct (Z.eq_dec (Z.succ m + 1) 1); [lia|].
    replace (Z.succ m + 1 - 1) with (m + 1) by lia.
    rewrite Hr. split; [reflexivity|nia].
Qed.

Lemma sumToNRecursive_from_sum (n : Z) :
  0 < n -> sumToNRecursive_from n = Host.Normal (n * (n + 1) / 2).
Proof.
  intros Hn. destruct (sumToNRecursive_from_succ (n - 1)) as (r & Hr & Hsum); [lia|].
  replace (n - 1 + 1) with n in * by lia. rewrite Hr. f_equal.
  apply half_exact. rewrite Hsum. f_equal. lia.
Qed.

(** The sum of [n] consecutive integers from [a] on. *)
Lemma fold_left_seqZ (n : nat) (a acc : Z) :
  2 * fold_left (fun sum num => sum + num) (seqZ a (Z.of_nat n)) acc
  = 2 * acc + Z.of_nat n * (2 * a + Z.of_nat n - 1).
Proof.
  revert a acc. induction n as [|n IH]; intros a acc.
  - rewrite seqZ_nil by lia. simpl. lia.
  - rewrite seqZ_cons by lia. cbn [fold_left].
    replace (Z.pred (Z.of_nat (S n))) with (Z.of_nat n) by lia.
    rewrite IH. nia.
Qed.

Lemma map_succ_seqZ (n : nat) (a : Z) :
  map (fun index => index + 1) (seqZ a (Z.of_nat n)) = seqZ (a + 1) (Z.of_nat n).
Proof.
  revert a. induction n as [|n IH]; intros a;
    [now rewrite (seqZ_nil a), (seqZ_nil (a + 1)) by (simpl; lia)|].
  rewrite (seqZ_cons a (Z.of_nat (S n))) by lia.
  rewrite (seqZ_cons (a + 1) (Z.of_nat (S n))) by lia. cbn [map].
  replace (Z.pred (Z.of_nat (S n))) with (Z.of_nat n) by lia.
  rewrite IH. repeat f_equal; lia.
Qed.

Lemma ToInt32_range (x : Z) : - 2 ^ 31 <= ToInt32 x < 2 ^ 31.
Proof.
  unfold ToInt32. pose proof (Z.mod_pos_bound (x + 2 ^ 31) (2 ^ 32)). lia.
Qed.

Lemma ToInt32_small (x : Z) : - 2 ^ 31 <= x < 2 ^ 31 -> ToInt32 x = x.
Proof. intros Hx. unfold ToInt32. rewrite Z.mod_small; lia. Qed.

(** X3: [validateInput] returns normally exactly when its argument is a
    positive integer; on every other number (zero, a negative number, a
    number with a fractional part, NaN, an infinity) it throws "Input must be
    a positive integer", and so does each of the seven implementations,
    before it computes anything. *)
Theorem validateInput_positive_integers (n : float) :
  (validateInput n = Host.Normal tt
   <-> exists k, integerValue n = Some k /\ 0 < k) /\
  ((~ exists k, integerValue n = Some k /\ 0 < k) ->
   validateInput n = Host.Throw invalidInput /\
   sumToNIterative n = Host.Throw invalidInput /\
   sumToNMathematical n = Host.Throw invalidInput /\
   sumToNRecursive n = Host.Throw invalidInput /\
   sumToNFunctional n = Host.Throw invalidInput /\
   sumToNWhile n = Host.Throw invalidInput /\
   sumToNGenerator n = Host.Throw invalidInput /\
   sumToNBitManipulation n = Host.Throw invalidInput).
Proof.
  split; [apply validateInput_Normal|].
  intros Hnot.
  assert (Hv : validateInput n = Host.Throw invalidInput).
  { destruct (validateInput_cases n) as [Hv|Hv]; [|exact Hv].
    apply validateInput_Normal in Hv. contradiction. }
  unfold sumToNIterative, sumToNMathematical, sumToNRecursive, sumToNFunctional,
    sumToNWhile, sumToNGenerator, sumToNBitManipulation.
  rewrite Hv. repeat split.
Qed.

Lemma validateInput_positive_integers_witness :
  validateInput 2.5 = Host.Throw invalidInput /\
  sumToNIterative 2.5 = Host.Throw invalidInput /\
  sumToNMathematical 2.5 = Host.Throw invalidInput /\
  sumToNRecursive 2.5 = Host.Throw invalidInput /\
  sumToNFunctional 2.5 = Host.Throw invalidInput /\
  sumToNWhile 2.5 = Host.Throw invalidInput /\
  sumToNGenerator 2.5 = Host.Throw invalidInput /\
  sumToNBitManipulation 2.5 = Host.Throw invalidInput.
Proof.
  apply (proj2 (validateInput_positive_integers 2.5)).
  intros (k & Hk & _). vm_compute in Hk. discriminate Hk.
Defined.







(** ** The wallet page: running the pipeline again, and the keys of the rows *)

Lemma sort_insert_sorted_id {A : Type} (comparefn : A -> A -> Z) (key : A -> Z)
    (x : A) (l : list A) :
  byKeyDesc comparefn key ->
  Forall (descending key x) l ->
  Host.sort_insert comparefn x l = x :: l.
Proof.
  intros Hcmp Hx. destruct l as [|y l]; [reflexivity|]. simpl.
  inversion Hx as [|? ? Hxy _]; subst.
  destruct (Z.leb_spec (comparefn x y) 0) as [_|Hgt]; [reflexivity|].
  apply Hcmp in Hxy. lia.
Qed.

(** Sorting a list that is in order leaves it as it is. *)
Lemma sort_sorted_id {A : Type} (comparefn : A -> A -> Z) (key : A -> Z)
    (l : list A) :
  byKeyDesc comparefn key ->
  StronglySorted (descending key) l ->
  Host.sort comparefn l = l.
Proof.
  intros Hcmp. induction 1 as [|x l Hl IH Hx]; [reflexivity|].
  simpl. rewrite IH. now apply (sort_insert_sorted_id comparefn key).
Qed.

Lemma filter_all_id {A : Type} (f : A -> bool) (l : list A) :
  Forall (fun x => f x = true) l -> List.filter f l = l.
Proof.
  induction 1 as [|x l Hx _ IH]; [reflexivity|].
  simpl. now rewrite Hx, IH.
Qed.

Lemma filter_sort_idempotent {A : Type} (comparefn : A -> A -> Z)
    (key : A -> Z) (keep : A -> bool) (l : list A) :
  byKeyDesc comparefn key ->
  Host.sort comparefn (List.filter keep (Host.sort comparefn (List.filter keep l)))
  = Host.sort comparefn (List.filter keep l).
Proof.
  intros Hcmp.
  rewrite (filter_all_id keep (Host.sort comparefn (List.filter keep l))).
  - apply (sort_sorted_id comparefn key); [exact Hcmp|].
    apply sort_sorted, Hcmp.
  - apply List.Forall_forall. intros x Hx.
    rewrite sort_In, filter_In in Hx. apply Hx.
Qed.

(** X7: the filter and sort stages are idempotent: run on their own output
    they return it unchanged, in the three variants (for the refactored and
    the optimal component, on the balances of the rows and with the same
    price table). *)
Theorem pipeline_idempotent
    (balances : list WalletBalance) (prices : gmap string float) :
  Exam.sortedBalances (Exam.sortedBalances balances)
  = Exam.sortedBalances balances /\
  Refactored.formattedBalances
    (map wallet (Refactored.formattedBalances balances prices)) prices
  = Refactored.formattedBalances balances prices /\
  Optimal.formattedBalances
    (map wallet (Optimal.formattedBalances balances prices)) prices
  = Optimal.formattedBalances balances prices.
Proof.
  split; [|split].
  - apply (filter_sort_idempotent Exam.compare priorityOf); auto with wallet.
  - rewrite Refactored_wallets. unfold Refactored.formattedBalances.
    now rewrite (filter_sort_idempotent Refactored.compare priorityOf)
      by auto with wallet.
  - rewrite Optimal_wallets. unfold Optimal.formattedBalances.
    now rewrite (filter_sort_idempotent Optimal.sortByPriorityDesc priorityOf)
      by auto with wallet.
Qed.

(** On the configured chains, the key of a row determines the chain and the
    currency: no configured name continues into another one. *)
Lemma Exam_key_inj (b1 b2 : WalletBalance) :
  DEFAULT_PRIORITY < priorityOf b1 -> DEFAULT_PRIORITY < priorityOf b2 ->
  WalletRow.key (Exam.row ∅ b1) = WalletRow.key (Exam.row ∅ b2) ->
  chainAndCurrency b1 = chainAndCurrency b2.
Proof.
  destruct b1 as [c1 a1 ch1], b2 as [c2 a2 ch2].
  unfold priorityOf, chainAndCurrency, DEFAULT_PRIORITY. simpl.
  intros H1 H2.
  destruct (getPriority_cases ch1)
    as [[-> _]|[[-> _]|[[-> _]|[[-> _]|[[-> _]|(_ & _ & E1)]]]]]; [..|lia];
  destruct (getPriority_cases ch2)
    as [[-> _]|[[-> _]|[[-> _]|[[-> _]|[[-> _]|(_ & _ & E2)]]]]]; try lia;
  intros Hkey; cbv in Hkey; try discriminate Hkey;
  injection Hkey as ->; reflexivity.
Qed.

Lemma NoDup_map_on {A B C : Type} (f : A -> B) (g : A -> C) (l : list A) :
  (forall x y, In x l -> In y l -> f x = f y -> g x = g y) ->
  List.NoDup (map g l) -> List.NoDup (map f l).
Proof.
  induction l as [|x l IH]; intros Hinj Hg; simpl; [constructor|].
  simpl in Hg. apply List.NoDup_cons_iff in Hg. destruct Hg as [Hx Hl].
  apply List.NoDup_cons_iff. split.
  - intros Hin. apply in_map_iff in Hin. destruct Hin as (y & Hy & Hyl).
    apply Hx. apply in_map_iff. exists y. split; [|exact Hyl].
    symmetry. apply Hinj; [now left|now right|now symmetry].
  - apply IH; [|exact Hl]. intros a b Ha Hb. apply Hinj; now right.
Qed.

(** X8: the keys that the exam component gives its rows (chain, a hyphen,
    currency) are pairwise distinct exactly when no two of the retained
    balances have both the same chain and the same currency. *)
Theorem Exam_keys_distinct
    (balances : list WalletBalance) (prices : gmap string float) :
  List.NoDup (map WalletRow.key (Exam.rows balances prices))
  <-> List.NoDup (map chainAndCurrency (List.filter Exam.keep balances)).
Proof.
  assert (Hperm : Permutation
            (map chainAndCurrency (Exam.sortedBalances balances))
            (map chainAndCurrency (List.filter Exam.keep balances))).
  { apply Permutation_map, sort_perm. }
  unfold Exam.rows. rewrite map_map. split.
  - intros Hkeys. eapply Permutation_NoDup; [exact Hperm|].
    revert Hkeys. apply NoDup_map_on.
    intros b1 b2 _ _ Hpair. unfold chainAndCurrency in Hpair.
    injection Hpair as Hchain Hcurrency. simpl. now rewrite Hchain, Hcurrency.
  - intros Hpairs. apply (NoDup_map_on _ chainAndCurrency).
    + intros b1 b2 Hb1 Hb2.
      unfold Exam.sortedBalances in Hb1, Hb2.
      rewrite sort_In, filter_In, Exam_keep_true in Hb1, Hb2.
      apply Exam_key_inj; [apply Hb1|apply Hb2].
    + eapply Permutation_NoDup; [symmetry; exact Hperm|exact Hpairs].
Qed.

Lemma Exam_keys_distinct_witness :
  List.NoDup (map WalletRow.key (Exam.rows App.mockBalances App.mockPrices)).
Proof.
  apply (proj2 (Exam_keys_distinct App.mockBalances App.mockPrices)).
  vm_compute.
  repeat (apply List.NoDup_cons_iff; split;
          [simpl; intuition discriminate|]).
  constructor.
Defined.

(** ** The token swap form: the amount typed *)

Import SwapForm.

Example handleAmountInput_value_examples :
  handleAmountInput_value (list_ascii_of_string "12a.5b.7.") = list_ascii_of_string "12.57" /\
  handleAmountInput_value (list_ascii_of_string "..") = list_ascii_of_string "." /\
  handleAmountInput_value (list_ascii_of_string "-1,000.50") = list_ascii_of_string "1000.50" /\
  handleAmountInput_value (list_ascii_of_string "1e5") = list_ascii_of_string "15" /\
  handleAmountInput_value (list_ascii_of_string "") = list_ascii_of_string "".
Proof. vm_compute. repeat split. Qed.

Lemma split_point_nonempty (value : list ascii) : split_point value <> [].
Proof.
  induction value as [|c rest IH]; simpl; [discriminate|].
  destruct (Ascii.eqb c "."); [discriminate|].
  destruct (split_point rest); [contradiction|discriminate].
Qed.

Lemma split_point_length (value : list ascii) :
  length (split_point value) = S (points value).
Proof.
  unfold points. induction value as [|c rest IH]; simpl; [reflexivity|].
  destruct (Ascii.eqb c "."); simpl; [now rewrite IH|].
  destruct (split_point rest) as [|part parts] eqn:E; [|exact IH].
  now apply split_point_nonempty in E.
Qed.

(** The first piece and the others, put together again without the
    points. *)
Lemma split_point_hd_tl (value : list ascii) :
  match value with
  | [] => True
  | c :: rest =>
      if Ascii.eqb c "."
      then hd [] (split_point value) = [] /\
           concat (tl (split_point value)) = concat (split_point rest)
      else hd [] (split_point value) = c :: hd [] (split_point rest) /\
           tl (split_point value) = tl (split_point rest)
  end.
Proof.
  destruct value as [|c rest]; [exact I|]. simpl.
  destruct (Ascii.eqb c "."); [split; reflexivity|].
  destruct (split_point rest) as [|part parts] eqn:E; [|split; reflexivity].
  now apply split_point_nonempty in E.
Qed.

Lemma concat_split_point (value : list ascii) :
  concat (split_point value)
  = List.filter (fun c => negb (Ascii.eqb c ".")) value.
Proof.
  induction value as [|c rest IH]; [reflexivity|]. simpl.
  destruct (Ascii.eqb c "."); simpl; [exact IH|].
  destruct (split_point rest) as [|part parts] eqn:E;
    [now apply split_point_nonempty in E|].
  simpl in *. now rewrite IH.
Qed.

Lemma hd_split_point_no_point (value : list ascii) :
  points (hd [] (split_point value)) = 0%nat.
Proof.
  unfold points. induction value as [|c rest IH]; [reflexivity|]. simpl.
  destruct (Ascii.eqb c ".") eqn:Ec; [reflexivity|].
  destruct (split_point rest) as [|part parts] eqn:E;
    [now apply split_point_nonempty in E|].
  simpl in *. now rewrite Ec.
Qed.

Lemma points_app (l1 l2 : list ascii) :
  points (l1 ++ l2) = (points l1 + points l2)%nat.
Proof. unfold points. now rewrite List.filter_app, length_app. Qed.

Lemma points_filter_negb (value : list ascii) :
  points (List.filter (fun c => negb (Ascii.eqb c ".")) value) = 0%nat.
Proof.
  unfold points. induction value as [|c rest IH]; [reflexivity|]. simpl.
  destruct (Ascii.eqb c ".") eqn:Ec; simpl; [exact IH|]. now rewrite Ec.
Qed.

Lemma points_concat_tl (value : list ascii) :
  points (concat (tl (split_point value))) = 0%nat.
Proof.
  induction value as [|c rest IH]; [reflexivity|].
  pose proof (split_point_hd_tl (c :: rest)) as H. cbv beta iota in H.
  destruct (Ascii.eqb c "."); destruct H as [_ H]; rewrite H.
  - rewrite concat_split_point. apply points_filter_negb.
  - exact IH.
Qed.

Lemma points_firstPointOnly (value : list ascii) :
  points (firstPointOnly value) = 1%nat.
Proof.
  unfold firstPointOnly. rewrite points_app, hd_split_point_no_point.
  change ("."%char :: concat (tl (split_point value)))
    with (["."%char] ++ concat (tl (split_point value))).
  rewrite points_app, points_concat_tl. reflexivity.
Qed.

Lemma filter_without_points (f : ascii -> bool) (value : list ascii) :
  f "."%char = false ->
  List.filter f (List.filter (fun c => negb (Ascii.eqb c ".")) value)
  = List.filter f value.
Proof.
  intros Hf. induction value as [|d rest IH]; [reflexivity|]. simpl.
  destruct (Ascii.eqb_spec d ".") as [->|Hd]; simpl.
  - rewrite Hf. exact IH.
  - destruct (f d); now rewrite IH.
Qed.

Lemma filter_firstPointOnly (f : ascii -> bool) (value : list ascii) :
  f "."%char = false ->
  List.filter f (firstPointOnly value) = List.filter f value.
Proof.
  intros Hf. unfold firstPointOnly.
  induction value as [|c rest IH]; [simpl; now rewrite Hf|].
  pose proof (split_point_hd_tl (c :: rest)) as H. cbv beta iota in H.
  rewrite List.filter_app in *. cbn [List.filter] in *. rewrite Hf in *.
  destruct (Ascii.eqb_spec c ".") as [->|Hc]; destruct H as [H1 H2].
  - rewrite H1. simpl tl. rewrite concat_split_point. simpl.
    now rewrite Hf, filter_without_points.
  - rewrite H1, H2. cbn [List.filter].
    destruct (f c); simpl; now rewrite IH.
Qed.

Lemma hd_tl_concat {A : Type} (parts : list (list A)) :
  hd [] parts ++ concat (tl parts) = concat parts.
Proof. destruct parts; reflexivity. Qed.

Lemma filter_filter_weaker {A : Type} (f g : A -> bool) (l : list A) :
  (forall x, f x = true -> g x = true) ->
  List.filter f (List.filter g l) = List.filter f l.
Proof.
  intros Hfg. induction l as [|x l IH]; [reflexivity|]. simpl.
  destruct (g x) eqn:Hg; simpl.
  - destruct (f x); now rewrite IH.
  - destruct (f x) eqn:Hf; [|exact IH]. apply Hfg in Hf. congruence.
Qed.

Lemma Forall_firstPointOnly (value : list ascii) :
  Forall (fun c => digitOrPoint c = true) value ->
  Forall (fun c => digitOrPoint c = true) (firstPointOnly value).
Proof.
  intros Hvalue. unfold firstPointOnly.
  assert (Hall : Forall (fun c => digitOrPoint c = true)
                   (hd [] (split_point value) ++ concat (tl (split_point value)))).
  { rewrite hd_tl_concat, concat_split_point.
    apply List.Forall_forall. intros c Hc. apply filter_In in Hc.
    rewrite List.Forall_forall in Hvalue. apply Hvalue, Hc. }
  apply Forall_app in Hall. destruct Hall as [Hhd Htl].
  apply Forall_app. split; [exact Hhd|]. constructor; [reflexivity|exact Htl].
Qed.

(** A value of digits with at most one point is written back as it is. *)
Lemma handleAmountInput_value_fixed (value : list ascii) :
  Forall (fun c => digitOrPoint c = true) value -> (points value <= 1)%nat ->
  handleAmountInput_value value = value.
Proof.
  intros Hall Hpoints. unfold handleAmountInput_value.
  rewrite (filter_all_id digitOrPoint value Hall), split_point_length.
  destruct (Nat.ltb_spec 2 (S (points value))); [lia|reflexivity].
Qed.


(** ** The token swap form: the tokens of the price feed *)

Example fetchPrices_examples :
  let feed :=
    [ {| entry_currency := "ETH"; entry_date := "b"; entry_price := Some 1645 |};
      {| entry_currency := "BTC"; entry_date := "a"; entry_price := Some 26002 |};
      {| entry_currency := "ETH"; entry_date := "c"; entry_price := Some 1650 |};
      {| entry_currency := "ETH"; entry_date := "a"; entry_price := Some 1600 |};
      {| entry_currency := "ZERO"; entry_date := "a"; entry_price := Some 0 |};
      {| entry_currency := "NONE"; entry_date := "a"; entry_price := None |} ]%float in
  let time text := if decide (text = "a"%string) then Some 1
                   else if decide (text = "b"%string) then Some 2
                   else if decide (text = "c"%string) then Some 3 else None in
  let compareLength (a b : string) :=
    Z.of_nat (String.length a) - Z.of_nat (String.length b) in
  fetchPrices_tokens time compareLength feed
  = [ {| token_currency := "ETH"; token_price := 1650 |};
      {| token_currency := "BTC"; token_price := 26002 |} ]%float.
Proof. vm_compute. reflexivity. Qed.

Lemma truthy_positive (p : float) : (0 <? p)%float = true -> truthy p = true.
Proof.
  unfold truthy, is_zero, is_nan.
  rewrite ltb_spec, !FloatAxioms.eqb_spec.
  change (Prim2SF 0) with (S754_zero false).
  unfold SFltb, SFeqb.
  destruct (Prim2SF p) as [s|[]| |[] m e]; try discriminate; simpl;
    try reflexivity.
  now rewrite Z.compare_refl, Pos.compare_cont_refl.
Qed.

Section MapFacts.
Context {V : Type}.
Implicit Types (m : list (string * V)) (key : string) (value : V).

Lemma Map_get_None key m : Map_get key m = None <-> ~ In key (map fst m).
Proof.
  unfold Map_get. induction m as [|[k v] m IH]; simpl; [tauto|].
  destruct (decide (k = key)) as [->|Hne].
  - rewrite bool_decide_eq_true_2 by reflexivity. simpl.
    split; [discriminate|]. intros H. exfalso. apply H. now left.
  - rewrite bool_decide_eq_false_2 by exact Hne.
    rewrite IH. tauto.
Qed.

Lemma Map_get_Some key m value : Map_get key m = Some value -> In (key, value) m.
Proof.
  unfold Map_get. induction m as [|[k v] m IH]; simpl; [discriminate|].
  destruct (decide (k = key)) as [->|Hne].
  - rewrite bool_decide_eq_true_2 by reflexivity. simpl.
    intros [= ->]. now left.
  - rewrite bool_decide_eq_false_2 by exact Hne. intros H. right. now apply IH.
Qed.

Lemma Map_set_absent key value m :
  ~ In key (map fst m) -> Map_set key value m = m ++ [(key, value)].
Proof.
  induction m as [|[k v] m IH]; simpl; [reflexivity|]. intros Hnot.
  destruct (decide (k = key)) as [->|Hne]; [tauto|].
  rewrite IH by tauto. reflexivity.
Qed.

Lemma Map_set_keys key value m :
  In key (map fst m) -> map fst (Map_set key value m) = map fst m.
Proof.
  induction m as [|[k v] m IH]; simpl; [contradiction|]. intros Hin.
  destruct (decide (k = key)) as [->|Hne]; [reflexivity|].
  simpl. rewrite IH; [reflexivity|]. destruct Hin; [contradiction|assumption].
Qed.

Lemma In_Map_set key value m k v :
  List.NoDup (map fst m) ->
  In (k, v) (Map_set key value m) ->
  (k = key /\ v = value) \/ (k <> key /\ In (k, v) m).
Proof.
  induction m as [|[k0 v0] m IH]; simpl; intros Hnodup Hin.
  - destruct Hin as [[= <- <-]|[]]. now left.
  - apply List.NoDup_cons_iff in Hnodup. destruct Hnodup as [Hk0 Hm].
    destruct (decide (k0 = key)) as [->|Hne].
    + destruct Hin as [[= <- <-]|Hin]; [now left|].
      right. split; [|now right].
      intros ->. apply Hk0. apply in_map_iff. now exists (key, v).
    + destruct Hin as [[= <- <-]|Hin]; [right; split; [exact Hne|now left]|].
      destruct (IH Hm Hin) as [?|[? ?]]; [now left|right; split; [|right]; assumption].
Qed.

End MapFacts.

Lemma laterThan_irrefl (d : option Z) : laterThan d d = false.
Proof. destruct d; simpl; [apply Z.ltb_irrefl|reflexivity]. Qed.

Lemma laterThan_trans_false (a b c : option Z) :
  laterThan a b = true -> laterThan c b = false -> laterThan c a = false.
Proof.
  destruct a as [x|], b as [y|], c as [z|]; simpl; try discriminate;
    try reflexivity.
  rewrite !Z.ltb_lt, !Z.ltb_ge. lia.
Qed.

Lemma NoDup_keys_functional {V : Type} (m : list (string * V)) key v1 v2 :
  List.NoDup (map fst m) -> In (key, v1) m -> In (key, v2) m -> v1 = v2.
Proof.
  induction m as [|[k v] m IH]; simpl; [contradiction|].
  intros Hnodup H1 H2. apply List.NoDup_cons_iff in Hnodup.
  destruct Hnodup as [Hk Hm].
  assert (Hnot : forall v', In (key, v') m -> k <> key).
  { intros v' Hin ->. apply Hk. apply in_map_iff. now exists (key, v'). }
  destruct H1 as [E1|H1], H2 as [E2|H2].
  - congruence.
  - injection E1 as E1 _. now destruct (Hnot v2 H2).
  - injection E2 as E2 _. now destruct (Hnot v1 H1).
  - now apply IH.
Qed.

Lemma NoDup_snoc {A : Type} (l : list A) (x : A) :
  List.NoDup l -> ~ In x l -> List.NoDup (l ++ [x]).
Proof.
  intros Hl Hx. eapply Permutation_NoDup; [apply Permutation_cons_append|].
  now constructor.
Qed.

Section FetchPricesFacts.
Variable Date_time : string -> option Z.
Variable localeCompare : string -> string -> Z.

Lemma latestFor_more processed item key held :
  latestFor Date_time processed key held ->
  (forall p, entry_currency item = key -> pricedAt item p ->
     laterThan (Date_time (entry_date item)) (dated_date held) = false) ->
  latestFor Date_time (processed ++ [item]) key held.
Proof.
  intros (Hcur & Hpos & src & Hsrc & Hkey & Hprice & Hdate & Hlatest) Hitem.
  repeat split; try assumption.
  exists src. repeat split; try assumption.
  - apply in_or_app. now left.
  - intros item' p' Hin Hc Hp. apply in_app_or in Hin.
    destruct Hin as [Hin|[<-|[]]]; [now apply (Hlatest item' p')|].
    now apply (Hitem p').
Qed.

Lemma collect_collected processed tokenMap item :
  collected Date_time processed tokenMap ->
  collected Date_time (processed ++ [item]) (collect Date_time tokenMap item).
Proof.
  intros (Hnodup & Hheld & Hall).
  assert (Hall' : forall keys, (forall k, In k (map fst tokenMap) -> In k keys) ->
            In (entry_currency item) keys ->
            forall item' p, In item' (processed ++ [item]) -> pricedAt item' p ->
            In (entry_currency item') keys).
  { intros keys Hsub Hkey item' p Hin Hp. apply in_app_or in Hin.
    destruct Hin as [Hin|[<-|[]]]; [|exact Hkey].
    apply Hsub. now apply (Hall item' p). }
  assert (Hskip : (forall p, ~ pricedAt item p) ->
                  collected Date_time (processed ++ [item]) tokenMap).
  { intros Hnot. split; [exact Hnodup|]. split.
    - intros key held Hin. apply latestFor_more; [now apply Hheld|].
      intros p _ Hp. now apply Hnot in Hp.
    - intros item' p Hin Hp. apply in_app_or in Hin.
      destruct Hin as [Hin|[<-|[]]]; [now apply (Hall item' p)|].
      now apply Hnot in Hp. }
  unfold collect.
  destruct (entry_price item) as [price|] eqn:Hprice;
    [|apply Hskip; intros p [Hp _]; congruence].
  destruct (0 <? price)%float eqn:Hpos;
    [rewrite (truthy_positive price Hpos); simpl
    |rewrite andb_false_r; apply Hskip; intros p [Hp Hp']; congruence].
  set (new := {| dated_currency := entry_currency item; dated_price := price;
                 dated_date := Date_time (entry_date item) |}).
  assert (Hnew : (forall item' p', In item' processed ->
                   entry_currency item' = entry_currency item ->
                   pricedAt item' p' ->
                   laterThan (Date_time (entry_date item'))
                     (Date_time (entry_date item)) = false) ->
                 latestFor Date_time (processed ++ [item]) (entry_currency item) new).
  { intros Hold. repeat split; try assumption.
    exists item. repeat split; try assumption.
    - apply in_or_app. right. now left.
    - intros item' p' Hin Hc Hp. apply in_app_or in Hin.
      destruct Hin as [Hin|[<-|[]]]; [now apply (Hold item' p')|].
      apply laterThan_irrefl. }
  destruct (Map_get (entry_currency item) tokenMap) as [existing|] eqn:Hget.
  - apply Map_get_Some in Hget.
    assert (Hkey : In (entry_currency item) (map fst tokenMap)).
    { apply in_map_iff. now exists (entry_currency item, existing). }
    destruct (Hheld _ _ Hget) as (_ & _ & _ & _ & _ & _ & _ & Hlatest).
    destruct (laterThan (Date_time (entry_date item)) (dated_date existing))
      eqn:Hlater.
    + split; [now rewrite Map_set_keys|]. split.
      * intros key held Hin.
        apply In_Map_set in Hin; [|exact Hnodup].
        destruct Hin as [[-> ->]|[Hne Hin]].
        -- apply Hnew. intros item' p' Hin' Hc Hp.
           eapply laterThan_trans_false; [exact Hlater|].
           now apply (Hlatest item' p').
        -- apply latestFor_more; [now apply Hheld|].
           intros p Hc. congruence.
      * rewrite Map_set_keys by exact Hkey. now apply Hall'.
    + split; [exact Hnodup|]. split.
      * intros key held Hin. apply latestFor_more; [now apply Hheld|].
        intros p Hc Hp. subst key.
        now rewrite (NoDup_keys_functional _ _ _ _ Hnodup Hin Hget).
      * now apply Hall'.
  - apply Map_get_None in Hget. rewrite Map_set_absent by exact Hget.
    split; [|split].
    + rewrite map_app. now apply NoDup_snoc.
    + intros key held Hin. apply in_app_or in Hin.
      destruct Hin as [Hin|[[= <- <-]|[]]].
      * apply latestFor_more; [now apply Hheld|].
        intros p Hc _. exfalso. apply Hget. rewrite Hc.
        apply in_map_iff. now exists (key, held).
      * apply Hnew. intros item' p' Hin' Hc Hp. exfalso. apply Hget.
        rewrite <- Hc. now apply (Hall item' p').
    + rewrite map_app. apply Hall'.
      * intros k Hk. apply in_or_app. now left.
      * apply in_or_app. right. now left.
Qed.

Lemma fold_collect_collected data processed tokenMap :
  collected Date_time processed tokenMap ->
  collected Date_time (processed ++ data)
    (fold_left (collect Date_time) data tokenMap).
Proof.
  revert processed tokenMap.
  induction data as [|item data IH]; intros processed tokenMap Hc; simpl.
  - now rewrite app_nil_r.
  - replace (processed ++ item :: data) with ((processed ++ [item]) ++ data)
      by (now rewrite <- app_assoc).
    apply IH. now apply collect_collected.
Qed.

End FetchPricesFacts.

Lemma fetchPrices_prices_lookup (tokens : list Token) (acc : gmap string float)
    (c : string) (p : float) :
  List.NoDup (map token_currency tokens) ->
  fold_left (fun acc token => <[token_currency token := token_price token]> acc)
    tokens acc !! c = Some p
  <-> In {| token_currency := c; token_price := p |} tokens \/
      (~ In c (map token_currency tokens) /\ acc !! c = Some p).
Proof.
  revert acc. induction tokens as [|[tc tp] tokens IH]; intros acc Hnodup; simpl.
  - tauto.
  - apply List.NoDup_cons_iff in Hnodup. destruct Hnodup as [Htc Hts].
    rewrite (IH _ Hts). destruct (decide (tc = c)) as [->|Hne].
    + rewrite lookup_insert_eq. split.
      * intros [Hin|[_ [= ->]]]; [|now left; left].
        exfalso. apply Htc. apply in_map_iff.
        now exists {| token_currency := c; token_price := p |}.
      * intros [[[= ->]|Hin]|[Hnot _]].
        -- right. split; [exact Htc|reflexivity].
        -- now left.
        -- exfalso. apply Hnot. now left.
    + rewrite lookup_insert_ne by exact Hne. split.
      * intros [Hin|[Hnot Hacc]]; [now left; right|].
        right. split; [|exact Hacc]. intros [?|?]; [contradiction|tauto].
      * intros [[[= ? ?]|Hin]|[Hnot Hacc]]; [contradiction|now left|].
        right. split; [tauto|exact Hacc].
Qed.

Lemma fetchPrices_tokens_In Date_time localeCompare data token :
  In token (fetchPrices_tokens Date_time localeCompare data)
  <-> exists held, In (token_currency token, held)
                     (fold_left (collect Date_time) data []) /\
                   token_price token = dated_price held.
Proof.
  destruct (fold_collect_collected Date_time data [] [])
    as (Hnodup & Hheld & _).
  { split; [constructor|]. split; [intros ? ? []|intros ? ? []]. }
  simpl in Hheld.
  unfold fetchPrices_tokens. rewrite sort_In, map_map, in_map_iff. split.
  - intros ([key held] & <- & Hin). simpl. exists held. split; [|reflexivity].
    destruct (Hheld key held Hin) as [-> _]. exact Hin.
  - intros (held & Hin & Hprice). exists (token_currency token, held).
    split; [|exact Hin]. simpl.
    destruct (Hheld _ held Hin) as [-> _]. rewrite <- Hprice.
    now destruct token.
Qed.

Lemma fetchPrices_tokens_NoDup Date_time localeCompare data :
  List.NoDup (map token_currency (fetchPrices_tokens Date_time localeCompare data)).
Proof.
  destruct (fold_collect_collected Date_time data [] [])
    as (Hnodup & Hheld & _).
  { split; [constructor|]. split; [intros ? ? []|intros ? ? []]. }
  simpl in Hheld.
  eapply Permutation_NoDup; [|exact Hnodup].
  unfold fetchPrices_tokens. symmetry.
  rewrite (Permutation_map token_currency (sort_perm _ _)).
  rewrite !map_map. apply Permutation_refl'.
  apply map_ext_in. intros [key held] Hin. simpl.
  now destruct (Hheld key held Hin).
Qed.

(** X10: the tokens that [fetchPrices] builds from the price feed carry each
    currency at most once; every token has a price above 0, taken from an
    entry of the feed for its currency than which no priced entry of that
    currency has a later date; and every currency with a priced entry has a
    token. Entries with a missing, zero or negative price are skipped. *)
Theorem fetchPrices_tokens_latest
    (Date_time : string -> option Z) (localeCompare : string -> string -> Z)
    (data : list PriceEntry) :
  let tokens := fetchPrices_tokens Date_time localeCompare data in
  List.NoDup (map token_currency tokens) /\
  (forall token, In token tokens ->
     (0 <? token_price token)%float = true /\
     exists item,
       In item data /\ entry_currency item = token_currency token /\
       entry_price item = Some (token_price token) /\
       forall item' p', In item' data ->
         entry_currency item' = token_currency token -> pricedAt item' p' ->
         laterThan (Date_time (entry_date item'))
           (Date_time (entry_date item)) = false) /\
  (forall item p, In item data -> pricedAt item p ->
     In (entry_currency item) (map token_currency tokens)).
Proof.
  intros tokens.
  destruct (fold_collect_collected Date_time data [] [])
    as (Hnodup & Hheld & Hall).
  { split; [constructor|]. split; [intros ? ? []|intros ? ? []]. }
  simpl in Hheld, Hall.
  assert (Hkeys : Permutation (map token_currency tokens)
                    (map fst (fold_left (collect Date_time) data []))).
  { unfold tokens, fetchPrices_tokens.
    rewrite (Permutation_map token_currency (sort_perm _ _)).
    rewrite !map_map. apply Permutation_refl'.
    apply map_ext_in. intros [key held] Hin. simpl.
    now destruct (Hheld key held Hin). }
  split; [|split].
  - apply fetchPrices_tokens_NoDup.
  - intros token Hin. apply fetchPrices_tokens_In in Hin.
    destruct Hin as (held & Hin & Hprice).
    destruct (Hheld _ _ Hin)
      as (_ & Hpos & item & Hitem & Hcur & Hip & Hdate & Hlatest).
    rewrite Hprice. split; [exact Hpos|].
    exists item. repeat split; try assumption.
    intros item' p' Hin' Hc Hp. rewrite <- Hdate. now apply (Hlatest item' p').
  - intros item p Hin Hp.
    eapply Permutation_in; [symmetry; exact Hkeys|]. now apply (Hall item p).
Qed.


(** ** Numbers: order, sums and differences *)

Lemma SFcompare_antisym (x y : spec_float) :
  SFcompare y x = option_map CompOpp (SFcompare x y).
Proof.
  destruct x as [sx|sx| |sx mx ex], y as [sy|sy| |sy my ey]; simpl;
    try reflexivity; try (now destruct sx); try (now destruct sy);
    try (now destruct sx, sy).
  f_equal. rewrite (Z.compare_antisym ex ey).
  change (Pos.compare_cont Eq my mx) with (Pos.compare_cont (CompOpp Eq) my mx).
  rewrite <- (Pos.compare_cont_antisym mx my Eq).
  destruct sx, sy, (ex ?= ey); simpl; try reflexivity;
    now rewrite CompOpp_involutive.
Qed.

Lemma nonnegative_leb (x : float) :
  (0 <=? x)%float = true <-> nonnegative (Prim2SF x).
Proof.
  rewrite leb_spec. change (Prim2SF 0) with (S754_zero false).
  unfold SFleb. destruct (Prim2SF x) as [s|[]| |[] m e]; simpl;
    split; try tauto; try discriminate.
Qed.

Lemma positive_SF (x : float) :
  (0 <? x)%float = true ->
  Prim2SF x = S754_infinity false \/ exists m e, Prim2SF x = S754_finite false m e.
Proof.
  rewrite ltb_spec. change (Prim2SF 0) with (S754_zero false).
  unfold SFltb. destruct (Prim2SF x) as [s|[]| |[] m e]; simpl;
    try discriminate; eauto.
Qed.

(** [a > b] is the negation of [a <= b] on numbers. *)
Lemma ltb_negb_leb (x y : float) :
  is_nan x = false -> is_nan y = false -> (y <? x)%float = negb (x <=? y)%float.
Proof.
  intros Hx Hy. rewrite ltb_spec, leb_spec. unfold SFltb, SFleb.
  rewrite (SFcompare_antisym (Prim2SF x) (Prim2SF y)).
  destruct (SFcompare (Prim2SF x) (Prim2SF y)) as [[]|] eqn:Hc; try reflexivity.
  exfalso.
  destruct (Prim2SF x) as [sx|sx| |sx mx ex] eqn:Ex;
    [| |apply is_nan_spec in Ex; congruence|];
    (destruct (Prim2SF y) as [sy|sy| |sy my ey] eqn:Ey;
     [| |apply is_nan_spec in Ey; congruence|]); discriminate.
Qed.

Lemma digits2_pos_bounds (m : positive) :
  2 ^ (Z.pos (digits2_pos m) - 1) <= Z.pos m < 2 ^ Z.pos (digits2_pos m).
Proof.
  induction m as [m IH|m IH|]; simpl digits2_pos; [| |simpl; lia];
    rewrite Pos2Z.inj_succ;
    replace (Z.succ (Z.pos (digits2_pos m)) - 1) with (Z.pos (digits2_pos m)) by lia;
    rewrite Z.pow_succ_r by lia;
    assert (H2 : 2 ^ Z.pos (digits2_pos m) = 2 * 2 ^ (Z.pos (digits2_pos m) - 1))
      by (rewrite <- Z.pow_succ_r by lia; f_equal; lia);
    lia.
Qed.

Lemma finite_valid (x : float) s m e :
  Prim2SF x = S754_finite s m e ->
  -1074 <= e /\ Z.pos (digits2_pos m) <= 53 /\
  (-1074 < e -> Z.pos (digits2_pos m) = 53).
Proof.
  intros Hx. pose proof (Prim2SF_valid x) as Hv. rewrite Hx in Hv.
  unfold SpecFloat.valid_binary, bounded, canonical_mantissa, fexp,
    SpecFloat.emin, prec, emax in Hv.
  apply andb_true_iff in Hv. destruct Hv as [Hv _].
  apply Z.eqb_eq in Hv. lia.
Qed.

Lemma shl_align_same (m : positive) (e : Z) : shl_align m e e = (m, e).
Proof. unfold shl_align. now rewrite Z.sub_diag. Qed.

Lemma iter_xO (d m : positive) : Z.pos (Pos.iter xO m d) = Z.pos m * 2 ^ Z.pos d.
Proof.
  induction d as [|d IH] using Pos.peano_ind.
  - simpl. lia.
  - rewrite Pos.iter_succ, Pos2Z.inj_succ, Z.pow_succ_r by lia.
    rewrite Pos2Z.inj_xO, IH. lia.
Qed.

Lemma binary_round_aux_sign (s : bool) (m e : Z) (l : location) :
  0 <= m ->
  match binary_round_aux prec emax s m e l with
  | S754_zero s' | S754_infinity s' | S754_finite s' _ _ => s' = s
  | S754_nan => False
  end.
Proof.
  intros Hm. unfold binary_round_aux.
  pose proof (shr_fexp_nonneg m e l Hm) as H1.
  destruct (shr_fexp prec emax m e l) as [mrs' e']. simpl in H1.
  pose proof (shr_fexp_nonneg _ e' loc_Exact
                (round_nearest_even_nonneg _ (loc_of_shr_record mrs') H1)) as H2.
  destruct (shr_fexp prec emax _ e' loc_Exact) as [mrs'' e'']. simpl in H2.
  destruct (shr_m mrs'') as [|p|p]; [reflexivity| |lia].
  destruct (e'' <=? emax - prec); reflexivity.
Qed.

Lemma binary_normalize_nonneg (m e : Z) :
  0 <= m -> nonnegative (binary_normalize prec emax m e false).
Proof.
  intros Hm. destruct m as [|p|p]; [exact I| |lia].
  unfold binary_normalize, binary_round.
  destruct (shl_align p e _) as [mz ez].
  pose proof (binary_round_aux_sign false (Z.pos mz) ez loc_Exact
                ltac:(lia)) as Hs.
  destruct (binary_round_aux prec emax false (Z.pos mz) ez loc_Exact);
    simpl in *; subst; tauto.
Qed.

(** Taking a positive number from one that is not smaller leaves at least 0,
    unless both are +Infinity. *)
Lemma sub_nonneg (b a : float) :
  (0 <? a)%float = true -> (b <? a)%float = false -> is_nan b = false ->
  (is_nan (b - a) = true /\ a = infinity) \/ (0 <=? b - a)%float = true.
Proof.
  intros Ha Hlt Hb.
  rewrite nonnegative_leb, is_nan_spec, sub_spec.
  rewrite ltb_spec in Hlt. unfold SFltb in Hlt.
  assert (Hb' : Prim2SF b <> S754_nan) by (rewrite <- is_nan_spec; congruence).
  destruct (positive_SF a Ha) as [Ea|(ma & ea & Ea)].
  - left. split; [|apply Prim2SF_inj; exact Ea].
    rewrite Ea in *.
    destruct (Prim2SF b) as [sb|[]| |[] mb eb]; simpl in *;
      try discriminate; try reflexivity; congruence.
  - right. pose proof (finite_valid a _ _ _ Ea) as (Hea & Hda & _).
    rewrite Ea in *.
    destruct (Prim2SF b) as [sb|[]| |[] mb eb] eqn:Eb; simpl in Hlt;
      try discriminate; try congruence; try exact I.
    pose proof (finite_valid b _ _ _ Eb) as (Heb & Hdb & Hnb).
    unfold SF64sub, SFsub. apply binary_normalize_nonneg. simpl cond_Zopp.
    pose proof (digits2_pos_bounds ma) as Hma.
    pose proof (digits2_pos_bounds mb) as Hmb.
    destruct (eb ?= ea) eqn:Hc.
    + apply Z.compare_eq in Hc. subst eb. rewrite Z.min_id, !shl_align_same.
      simpl. destruct (Pos.compare_cont Eq mb ma) eqn:Hm; try discriminate.
      * apply Pos.compare_eq in Hm. subst. lia.
      * change (Pos.compare mb ma = Gt) in Hm. apply Pos.compare_gt_iff in Hm. lia.
    + discriminate.
    + apply Z.compare_gt_iff in Hc. rewrite Z.min_r by lia.
      rewrite shl_align_same. unfold shl_align.
      destruct (ea - eb) as [|d|d] eqn:Hd; try lia. simpl fst.
      rewrite iter_xO.
      rewrite (Hnb ltac:(lia)) in Hmb.
      assert (2 ^ Z.pos (digits2_pos ma) <= 2 ^ 53)
        by (apply Z.pow_le_mono_r; lia).
      assert (2 ^ 1 <= 2 ^ Z.pos d) by (apply Z.pow_le_mono_r; lia).
      change (2 ^ (53 - 1)) with 4503599627370496 in Hmb.
      change (2 ^ 53) with 9007199254740992 in *.
      change (2 ^ 1) with 2 in *. nia.
Qed.

(** Adding a positive number to one that is at least 0 gives at least 0. *)
Lemma add_nonneg (x y : float) :
  (0 <=? x)%float = true -> (0 <? y)%float = true -> (0 <=? x + y)%float = true.
Proof.
  intros Hx Hy. rewrite nonnegative_leb in *. rewrite add_spec.
  destruct (positive_SF y Hy) as [Ey|(my & ey & Ey)]; rewrite Ey.
  - destruct (Prim2SF x) as [sx|[]| |[] mx ex]; simpl in *; tauto.
  - destruct (Prim2SF x) as [sx|[]| |[] mx ex]; simpl in Hx; try tauto;
      try exact I.
    unfold SF64add, SFadd. apply binary_normalize_nonneg. simpl. lia.
Qed.

(** ** The token swap application: validation, balances and amounts *)

Example validateSwap_examples :
  let state := {| SwapApp.tokenPrices := {[ "SWTH" := 0.0001; "ETH" := 2000 ]}%float;
                  SwapApp.availableTokens := [];
                  SwapApp.userBalances := {[ "SWTH" := 500 ]}%float;
                  SwapApp.selectedFromToken := "SWTH";
                  SwapApp.selectedToToken := "ETH";
                  SwapApp.isLoading := false |} in
  SwapApp.code (SwapApp.validateSwap
                  {| SwapApp.fromAmount := 0; SwapApp.toAmount := 1 |} state)
  = Some SwapApp.ERROR_CODES.INVALID_AMOUNT /\
  SwapApp.code (SwapApp.validateSwap
                  {| SwapApp.fromAmount := 501; SwapApp.toAmount := 1 |} state)
  = Some SwapApp.ERROR_CODES.INSUFFICIENT_BALANCE /\
  SwapApp.message (SwapApp.validateSwap
                     {| SwapApp.fromAmount := 500; SwapApp.toAmount := 0.025 |} state)
  = "Swap 500.000000 SWTH for 0.025000 ETH"%string /\
  SwapApp.calculateToAmount state 2 "ETH" "SWTH" = Some 40000000%float /\
  SwapApp.calculateToAmount state 500 "SWTH" "BTC" = None /\
  SwapApp.getUserBalance
    (SwapApp.updateBalancesAfterSwap state "SWTH" "ETH" 125 0.5) "SWTH" = 375%float.
Proof. vm_compute. repeat split. Qed.

Lemma truthy_SF (x : float) :
  truthy x = true <->
  match Prim2SF x with
  | S754_zero _ | S754_nan => False
  | _ => True
  end.
Proof.
  unfold truthy, is_zero, is_nan. rewrite !FloatAxioms.eqb_spec.
  change (Prim2SF 0) with (S754_zero false). unfold SFeqb.
  destruct (Prim2SF x) as [s|[]| |s m e]; simpl;
    try rewrite Z.compare_refl, Pos.compare_cont_refl;
    try destruct s; simpl; split; try tauto; try discriminate.
Qed.

Lemma truthy_not_nan (x : float) : truthy x = true -> is_nan x = false.
Proof.
  unfold truthy. intros H. apply negb_true_iff, orb_false_iff in H. tauto.
Qed.

(** [!x || x <= 0] holds of every number that is not above 0. *)
Lemma invalid_amount (x : float) :
  negb (truthy x) || (x <=? 0)%float = negb (0 <? x)%float.
Proof.
  destruct (truthy x) eqn:Ht.
  - pose proof (truthy_not_nan x Ht) as Hn.
    rewrite (ltb_negb_leb x 0 Hn eq_refl), negb_involutive. reflexivity.
  - simpl. symmetry. apply negb_true_iff.
    destruct (0 <? x)%float eqn:Hp; [|reflexivity].
    apply truthy_positive in Hp. congruence.
Qed.

Lemma invalid_amounts (x y : float) :
  negb (truthy x) || negb (truthy y) || (x <=? 0)%float || (y <=? 0)%float
  = negb ((0 <? x)%float && (0 <? y)%float).
Proof.
  rewrite negb_andb, <- !invalid_amount.
  now destruct (truthy x), (truthy y), (x <=? 0)%float, (y <=? 0)%float.
Qed.

Lemma orElse_not_nan (value : option float) (fallback : float) :
  is_nan fallback = false -> is_nan (SwapApp.orElse value fallback) = false.
Proof.
  intros Hf. unfold SwapApp.orElse. destruct value as [x|]; [|exact Hf].
  destruct (truthy x) eqn:Ht; [now apply truthy_not_nan|exact Hf].
Qed.

Lemma orElse_nonneg (x : float) :
  is_nan x = true \/ (0 <=? x)%float = true ->
  (0 <=? SwapApp.orElse (Some x) 0)%float = true.
Proof.
  intros H. unfold SwapApp.orElse. destruct (truthy x) eqn:Ht; [|reflexivity].
  apply truthy_not_nan in Ht. destruct H; congruence.
Qed.

(** The product of two numbers other than 0 is a number. *)
Lemma mul_truthy_not_nan (x y : float) :
  truthy x = true -> truthy y = true -> is_nan (x * y) = false.
Proof.
  rewrite !truthy_SF. intros Hx Hy.
  destruct (is_nan (x * y)) eqn:Hnan; [|reflexivity].
  apply is_nan_spec in Hnan. rewrite mul_spec in Hnan.
  destruct (Prim2SF x) as [sx|sx| |sx mx ex], (Prim2SF y) as [sy|sy| |sy my ey];
    try contradiction; try discriminate.
  apply binary_round_aux_not_nan in Hnan; [contradiction|lia].
Qed.

(** X12: [validateSwap] reports exactly one of four verdicts, in this order
    of precedence: INVALID_AMOUNT unless both amounts are above 0 (so also
    for NaN); else SAME_TOKEN when the two selected tokens are the same;
    else INSUFFICIENT_BALANCE unless the amount to send is at most the
    balance reported for the token sent; else no code. It accepts the swap
    exactly when it reports no code. *)
Theorem validateSwap_decision (amounts : SwapApp.SwapState) (state : SwapApp.AppState) :
  let result := SwapApp.validateSwap amounts state in
  let positive := (0 <? SwapApp.fromAmount amounts)%float = true /\
                  (0 <? SwapApp.toAmount amounts)%float = true in
  let distinct := SwapApp.selectedFromToken state <> SwapApp.selectedToToken state in
  let covered :=
    (SwapApp.fromAmount amounts
     <=? SwapApp.getUserBalance state (SwapApp.selectedFromToken state))%float = true in
  (SwapApp.code result = Some SwapApp.ERROR_CODES.INVALID_AMOUNT <-> ~ positive) /\
  (SwapApp.code result = Some SwapApp.ERROR_CODES.SAME_TOKEN
   <-> positive /\ ~ distinct) /\
  (SwapApp.code result = Some SwapApp.ERROR_CODES.INSUFFICIENT_BALANCE
   <-> positive /\ distinct /\ ~ covered) /\
  (SwapApp.code result = None <-> positive /\ distinct /\ covered) /\
  (SwapApp.isValid result = true <-> SwapApp.code result = None).
Proof.
  intros result positive distinct covered.
  unfold result, SwapApp.validateSwap. rewrite invalid_amounts.
  subst positive distinct covered.
  destruct (0 <? SwapApp.fromAmount amounts)%float eqn:Hf;
    [|simpl; intuition (try discriminate; try congruence)].
  destruct (0 <? SwapApp.toAmount amounts)%float eqn:Ht;
    [|simpl; intuition (try discriminate; try congruence)].
  simpl negb. cbv iota.
  rewrite (ltb_negb_leb (SwapApp.fromAmount amounts)
             (SwapApp.getUserBalance state (SwapApp.selectedFromToken state)))
    by (try (apply truthy_not_nan, truthy_positive, Hf);
        apply orElse_not_nan; reflexivity).
  destruct (decide (SwapApp.selectedFromToken state = SwapApp.selectedToToken state))
    as [Heq|Hne].
  - rewrite bool_decide_eq_true_2 by exact Heq. simpl.
    intuition (try discriminate; try congruence).
  - rewrite bool_decide_eq_false_2 by exact Hne.
    destruct (SwapApp.fromAmount amounts
              <=? SwapApp.getUserBalance state (SwapApp.selectedFromToken state))%float;
      simpl; intuition (try discriminate; try congruence).
Qed.

Lemma validateSwap_valid (amounts : SwapApp.SwapState) (state : SwapApp.AppState) :
  SwapApp.isValid (SwapApp.validateSwap amounts state) = true ->
  (0 <? SwapApp.fromAmount amounts)%float = true /\
  (0 <? SwapApp.toAmount amounts)%float = true /\
  SwapApp.selectedFromToken state <> SwapApp.selectedToToken state /\
  (SwapApp.getUserBalance state (SwapApp.selectedFromToken state)
   <? SwapApp.fromAmount amounts)%float = false.
Proof.
  unfold SwapApp.validateSwap. rewrite invalid_amounts.
  destruct (0 <? SwapApp.fromAmount amounts)%float; [|discriminate].
  destruct (0 <? SwapApp.toAmount amounts)%float; [|discriminate].
  simpl negb. cbv iota.
  destruct (decide (SwapApp.selectedFromToken state = SwapApp.selectedToToken state))
    as [Heq|Hne].
  - rewrite bool_decide_eq_true_2 by exact Heq. discriminate.
  - rewrite bool_decide_eq_false_2 by exact Hne.
    destruct (_ <? _)%float; [discriminate|]. tauto.
Qed.

(** X13: a swap that [validateSwap] accepts keeps the balances at or above
    0. When every balance that the state manager reports is at least 0 and
    the swap is accepted, then after [updateBalancesAfterSwap] on the two
    selected tokens every reported balance is still at least 0; the token
    sent holds its old balance less the amount sent, the token received its
    old balance plus the amount received, every other balance is as it was,
    and prices and selection are untouched. *)
Theorem validated_swap_balances
    (amounts : SwapApp.SwapState) (state : SwapApp.AppState) :
  SwapApp.isValid (SwapApp.validateSwap amounts state) = true ->
  balancesNonnegative state ->
  let fromToken := SwapApp.selectedFromToken state in
  let toToken := SwapApp.selectedToToken state in
  let state' :=
    SwapApp.updateBalancesAfterSwap state fromToken toToken
      (SwapApp.fromAmount amounts) (SwapApp.toAmount amounts) in
  balancesNonnegative state' /\
  SwapApp.userBalances state' !! fromToken
  = Some (SwapApp.getUserBalance state fromToken - SwapApp.fromAmount amounts)%float /\
  SwapApp.userBalances state' !! toToken
  = Some (SwapApp.getUserBalance state toToken + SwapApp.toAmount amounts)%float /\
  (forall symbol, symbol <> fromToken -> symbol <> toToken ->
     SwapApp.userBalances state' !! symbol = SwapApp.userBalances state !! symbol) /\
  SwapApp.tokenPrices state' = SwapApp.tokenPrices state /\
  SwapApp.selectedFromToken state' = fromToken /\
  SwapApp.selectedToToken state' = toToken.
Proof.
  intros Hvalid Hinv fromToken toToken state'.
  apply validateSwap_valid in Hvalid.
  destruct Hvalid as (Hfa & Hta & Hne & Hcov).
  assert (Hfrom : SwapApp.userBalances state' !! fromToken
                  = Some (SwapApp.getUserBalance state fromToken
                          - SwapApp.fromAmount amounts)%float).
  { unfold state', SwapApp.updateBalancesAfterSwap. simpl.
    rewrite lookup_insert_ne by (intros E; apply Hne; now symmetry).
    apply lookup_insert_eq. }
  assert (Hto : SwapApp.userBalances state' !! toToken
                = Some (SwapApp.getUserBalance state toToken
                        + SwapApp.toAmount amounts)%float).
  { unfold state', SwapApp.updateBalancesAfterSwap. simpl.
    apply lookup_insert_eq. }
  assert (Hother : forall symbol, symbol <> fromToken -> symbol <> toToken ->
            SwapApp.userBalances state' !! symbol
            = SwapApp.userBalances state !! symbol).
  { intros symbol H1 H2. unfold state', SwapApp.updateBalancesAfterSwap. simpl.
    rewrite !lookup_insert_ne by congruence. reflexivity. }
  split; [|repeat split; assumption].
  intros symbol. unfold SwapApp.getUserBalance.
  destruct (decide (symbol = toToken)) as [->|H2].
  - rewrite Hto. apply orElse_nonneg. right. apply add_nonneg; [apply Hinv|exact Hta].
  - destruct (decide (symbol = fromToken)) as [->|H1].
    + rewrite Hfrom. apply orElse_nonneg.
      destruct (sub_nonneg (SwapApp.getUserBalance state fromToken)
                  (SwapApp.fromAmount amounts) Hfa Hcov) as [[Hnan _]|Hpos].
      * apply orElse_not_nan. reflexivity.
      * now left.
      * now right.
    + rewrite (Hother symbol H1 H2). apply Hinv.
Qed.

Lemma validated_swap_balances_witness :
  let state := {| SwapApp.tokenPrices := {[ "SWTH" := 0.0001; "ETH" := 2000 ]}%float;
                  SwapApp.availableTokens := [];
                  SwapApp.userBalances := {[ "SWTH" := 500 ]}%float;
                  SwapApp.selectedFromToken := "SWTH";
                  SwapApp.selectedToToken := "ETH";
                  SwapApp.isLoading := false |} in
  SwapApp.userBalances
    (SwapApp.updateBalancesAfterSwap state "SWTH" "ETH" 125 0.5) !! "SWTH"
  = Some (SwapApp.getUserBalance state "SWTH" - 125)%float.
Proof.
  intros state.
  refine (proj1 (proj2 (validated_swap_balances
            {| SwapApp.fromAmount := 125; SwapApp.toAmount := 0.5 |} state _ _))).
  - vm_compute. reflexivity.
  - intros symbol. unfold SwapApp.getUserBalance, state. simpl.
    destruct (decide (symbol = "SWTH"%string)) as [->|Hne].
    + vm_compute. reflexivity.
    + rewrite lookup_singleton_ne by congruence. reflexivity.
Defined.

(** X14: the amount that [calculateToAmount] returns is defined exactly when
    both prices are present and neither is 0 or NaN and their quotient is
    neither 0 nor NaN; it is then the amount times that quotient, and it is
    a number (not NaN) whenever the amount put in is neither 0 nor NaN, as
    the callers ensure. No division by a missing or zero price takes place.
    [calculateFromAmount] is the same computation with the tokens
    exchanged. *)
Theorem exchange_amount_defined
    (state : SwapApp.AppState) (amount : float) (fromToken toToken : string) :
  truthy amount = true ->
  (forall received,
     SwapApp.calculateToAmount state amount fromToken toToken = Some received
     <-> exists fromPrice toPrice,
           SwapApp.tokenPrices state !! fromToken = Some fromPrice /\
           SwapApp.tokenPrices state !! toToken = Some toPrice /\
           truthy fromPrice = true /\ truthy toPrice = true /\
           truthy (fromPrice / toPrice) = true /\
           received = (amount * (fromPrice / toPrice))%float) /\
  (forall received,
     SwapApp.calculateToAmount state amount fromToken toToken = Some received ->
     is_nan received = false) /\
  SwapApp.calculateFromAmount state amount fromToken toToken
  = SwapApp.calculateToAmount state amount toToken fromToken.
Proof.
  intros Hamount.
  assert (Hspec : forall received,
     SwapApp.calculateToAmount state amount fromToken toToken = Some received
     <-> exists fromPrice toPrice,
           SwapApp.tokenPrices state !! fromToken = Some fromPrice /\
           SwapApp.tokenPrices state !! toToken = Some toPrice /\
           truthy fromPrice = true /\ truthy toPrice = true /\
           truthy (fromPrice / toPrice) = true /\
           received = (amount * (fromPrice / toPrice))%float).
  { intros received.
    unfold SwapApp.calculateToAmount, SwapApp.calculateExchangeRate,
      SwapApp.getTokenPrice.
    destruct (SwapApp.tokenPrices state !! fromToken) as [pf|] eqn:Ef;
      [|simpl; split; [discriminate|intros (? & ? & ? & _); discriminate]].
    destruct (truthy pf) eqn:Tf;
      [|simpl; split; [discriminate|];
        intros (? & ? & [= <-] & _ & ? & _); congruence].
    destruct (SwapApp.tokenPrices state !! toToken) as [pt|] eqn:Et;
      [|simpl; rewrite orb_true_r; split;
        [discriminate|intros (? & ? & _ & ? & _); discriminate]].
    simpl. rewrite Tf. simpl.
    destruct (truthy pt) eqn:Tt;
      [|simpl; split; [discriminate|];
        intros (? & ? & _ & [= <-] & _ & ? & _); congruence].
    simpl. rewrite Tt. simpl.
    destruct (truthy (pf / pt)) eqn:Tr.
    - split.
      + intros [= <-]. exists pf, pt. tauto.
      + intros (? & ? & [= <-] & [= <-] & _ & _ & _ & ->). reflexivity.
    - split; [discriminate|].
      intros (? & ? & [= <-] & [= <-] & _ & _ & ? & _). congruence. }
  split; [exact Hspec|]. split; [|reflexivity].
  intros received Hr. apply Hspec in Hr.
  destruct Hr as (pf & pt & _ & _ & _ & _ & Hrate & ->).
  now apply mul_truthy_not_nan.
Qed.

Lemma exchange_amount_defined_witness :
  let state := {| SwapApp.tokenPrices := {[ "SWTH" := 0.0001; "ETH" := 2000 ]}%float;
                  SwapApp.availableTokens := [];
                  SwapApp.userBalances := ∅;
                  SwapApp.selectedFromToken := "SWTH";
                  SwapApp.selectedToToken := "ETH";
                  SwapApp.isLoading := false |} in
  SwapApp.calculateFromAmount state 2 "SWTH" "ETH"
  = SwapApp.calculateToAmount state 2 "ETH" "SWTH".
Proof.
  intros state.
  refine (proj2 (proj2 (exchange_amount_defined state 2 "SWTH" "ETH" _))).
  vm_compute. reflexivity.
Defined.

(** ** The token swap form: the tokens selected *)

Lemma fetchPrices_tokens_positive Date_time localeCompare data token :
  In token (fetchPrices_tokens Date_time localeCompare data) ->
  (0 <? token_price token)%float = true.
Proof.
  intros Hin. apply fetchPrices_tokens_In in Hin.
  destruct Hin as (held & Hin & ->).
  destruct (fold_collect_collected Date_time data [] [])
    as (_ & Hheld & _).
  { split; [constructor|]. split; [intros ? ? []|intros ? ? []]. }
  now destruct (Hheld _ _ Hin) as (_ & Hpos & _).
Qed.

Lemma handle_fixed (s : Selection) (event : Event) :
  tokens (handle s event) = tokens s /\ prices (handle s event) = prices s.
Proof.
  destruct event; simpl; try (split; reflexivity).
  - unfold selectToken. destruct (List.find _ _); [|split; reflexivity].
    destruct (bool_decide _); split; reflexivity.
  - unfold swapTokenDirection.
    destruct (selectedFromToken s), (selectedToToken s); split; reflexivity.
Qed.

Lemma handle_selection (s : Selection) (event : Event) (token : Token) :
  selectedFromToken (handle s event) = Some token \/
  selectedToToken (handle s event) = Some token ->
  In token (tokens s) \/
  selectedFromToken s = Some token \/ selectedToToken s = Some token.
Proof.
  destruct event; simpl; try tauto.
  - unfold selectToken.
    destruct (List.find _ _) as [found|] eqn:Hfind; [|tauto].
    apply find_some in Hfind. destruct Hfind as [Hin _].
    destruct (bool_decide _); simpl; intros [H|H]; try tauto;
      injection H as <-; now left.
  - unfold swapTokenDirection.
    destruct (selectedFromToken s) eqn:Ef, (selectedToToken s) eqn:Et; simpl;
      rewrite ?Ef, ?Et; tauto.
  - intros [H|H]; discriminate.
Qed.


(** ** The token swap application: the prices fetched and the first balances *)

Lemma collectPrice_recorded (acc : gmap string float) (token : SwapApp.PriceData) :
  (exists p, recorded token (SwapApp.currency token) p /\
             SwapApp.collectPrice acc token = <[SwapApp.currency token := p]> acc) \/
  ((forall c p, ~ recorded token c p) /\ SwapApp.collectPrice acc token = acc).
Proof.
  unfold SwapApp.collectPrice, recorded.
  destruct (SwapApp.price token) as [p|] eqn:Hp;
    [|right; split; [intros c p (_ & [=] & _)|reflexivity]].
  destruct (truthy p) eqn:Ht;
    [|right; split; [intros c p' (_ & [= <-] & ? & _); congruence|reflexivity]].
  destruct (String.eqb (SwapApp.currency token) "") eqn:He; simpl.
  - right. split; [|reflexivity]. intros c p' (<- & _ & _ & Hc).
    apply String.eqb_eq in He. contradiction.
  - left. exists p. apply String.eqb_neq in He. tauto.
Qed.

Lemma snoc_split {A : Type} (l before after : list A) (x item : A) :
  l ++ [x] = before ++ item :: after ->
  (after = [] /\ l = before /\ x = item) \/
  (exists after', after = after' ++ [x] /\ l = before ++ item :: after').
Proof.
  intros H. destruct after as [|a after] using rev_ind.
  - left. apply app_inj_tail in H. tauto.
  - right. exists after.
    change (before ++ item :: after ++ [a])
      with (before ++ (item :: after) ++ [a]) in H.
    rewrite app_assoc in H. apply app_inj_tail in H.
    destruct H as [-> ->]. tauto.
Qed.

Lemma fetched_prices_truthy (data : list SwapApp.PriceData)
    (acc : gmap string float) :
  (forall c p, acc !! c = Some p -> truthy p = true) ->
  forall c p, fold_left SwapApp.collectPrice data acc !! c = Some p ->
              truthy p = true.
Proof.
  revert acc. induction data as [|x data IH]; intros acc Hacc; simpl;
    [exact Hacc|].
  apply IH.
  destruct (collectPrice_recorded acc x) as [(q & Hrec & ->)|[_ ->]];
    [|exact Hacc].
  intros c p. destruct (decide (SwapApp.currency x = c)) as [<-|Hc].
  - rewrite lookup_insert_eq. intros [= <-]. now destruct Hrec as (_ & _ & Ht & _).
  - rewrite lookup_insert_ne by exact Hc. apply Hacc.
Qed.

Lemma fetchTokenPrices_truthy (response : option (list SwapApp.PriceData))
    (c : string) (p : float) :
  SwapApp.fetchTokenPrices response !! c = Some p -> truthy p = true.
Proof.
  destruct response as [data|]; simpl.
  - apply fetched_prices_truthy. intros c' p'. rewrite lookup_empty. discriminate.
  - unfold SwapApp.fallbackPrices. intros H.
    repeat (apply lookup_insert_Some in H;
            destruct H as [[_ <-]|[_ H]]; [reflexivity|]).
    apply lookup_singleton_Some in H. now destruct H as [_ <-].
Qed.



(** The product of a number that is at least 0 and a positive finite one is
    at least 0. *)
Lemma mul_nonneg (x y : float) :
  (0 <=? x)%float = true -> (0 <? y)%float = true -> is_finite y = true ->
  (0 <=? x * y)%float = true.
Proof.
  intros Hx Hy Hfin. rewrite nonnegative_leb in *. rewrite mul_spec.
  apply is_finite_spec in Hfin.
  destruct (positive_SF y Hy) as [Ey|(my & ey & Ey)]; rewrite Ey in *;
    [contradiction|].
  destruct (Prim2SF x) as [sx|[]| |[] mx ex]; simpl in Hx; try tauto;
    try exact I.
  unfold SF64mul, SFmul. simpl xorb.
  pose proof (binary_round_aux_sign false (Z.pos (mx * my)) (ex + ey) loc_Exact
                ltac:(lia)) as Hs.
  destruct (binary_round_aux prec emax false (Z.pos (mx * my)) (ex + ey) loc_Exact);
    simpl in *; subst; tauto.
Qed.

Lemma mockBalances_nonnegative (random : nat -> float)
    (listed : list SwapApp.TokenData) (first : nat) (balances : gmap string float) :
  (forall i, (0 <=? random i)%float = true) ->
  (forall symbol, (0 <=? SwapApp.orElse (balances !! symbol) 0)%float = true) ->
  forall symbol,
    (0 <=? SwapApp.orElse
             (SwapApp.mockBalances random first listed balances !! symbol) 0)%float
    = true.
Proof.
  intros Hrandom. revert first balances.
  induction listed as [|token listed IH]; intros first balances Hb; simpl;
    [exact Hb|].
  apply IH. intros symbol.
  destruct (decide (SwapApp.symbol token = symbol)) as [<-|Hne].
  - rewrite lookup_insert_eq. apply orElse_nonneg. right.
    apply add_nonneg; [|reflexivity].
    apply mul_nonneg; [apply Hrandom|reflexivity|reflexivity].
  - rewrite lookup_insert_ne by exact Hne. apply Hb.
Qed.

(** X18: the balances that [generateMockBalances] draws are at least 0: with
    [Math.random] returning numbers that are at least 0, every balance that
    the state manager reports after [setUserBalances] of the drawn balances
    is at least 0; a token that is not listed reports 0. *)
Theorem generateMockBalances_nonnegative
    (random : nat -> float) (state : SwapApp.AppState) :
  (forall i, (0 <=? random i)%float = true) ->
  let state' := SwapApp.setUserBalances state
                  (SwapApp.generateMockBalances random state) in
  balancesNonnegative state' /\
  forall symbol,
    ~ In symbol (map SwapApp.symbol (SwapApp.getAvailableTokens state)) ->
    SwapApp.getUserBalance state' symbol = 0%float.
Proof.
  intros Hrandom state'. split.
  - intros symbol. unfold state', SwapApp.getUserBalance,
      SwapApp.generateMockBalances. simpl.
    apply mockBalances_nonnegative; [exact Hrandom|].
    intros s. rewrite lookup_empty. reflexivity.
  - intros symbol Hnot. unfold state', SwapApp.getUserBalance,
      SwapApp.generateMockBalances. simpl.
    assert (H : forall listed first balances,
              ~ In symbol (map SwapApp.symbol listed) ->
              SwapApp.mockBalances random first listed balances !! symbol
              = balances !! symbol).
    { intros listed.
      induction listed as [|token listed IH]; intros first balances Hn; simpl;
        [reflexivity|].
      simpl in Hn. rewrite IH by tauto.
      apply lookup_insert_ne. tauto. }
    rewrite H by exact Hnot. rewrite lookup_empty. reflexivity.
Qed.

Lemma generateMockBalances_nonnegative_witness :
  let state := {| SwapApp.tokenPrices := {[ "ETH" := 2000 ]}%float;
                  SwapApp.availableTokens :=
                    [ {| SwapApp.symbol := "ETH"; SwapApp.name := "Ethereum";
                         SwapApp.icon := "ETH.svg" |} ];
                  SwapApp.userBalances := ∅;
                  SwapApp.selectedFromToken := "SWTH";
                  SwapApp.selectedToToken := "ETH";
                  SwapApp.isLoading := false |} in
  SwapApp.getUserBalance
    (SwapApp.setUserBalances state
       (SwapApp.generateMockBalances (fun _ => 0.5%float) state)) "BTC"
  = 0%float.
Proof.
  intros state.
  refine (proj2 (generateMockBalances_nonnegative (fun _ => 0.5%float) state _)
            "BTC"%string _).
  - intros i. reflexivity.
  - vm_compute. intros [H|[]]. discriminate.
Defined.

